(** * url-to-pdf: the client-side PDF cache, the conversion flow and the
      server-side render handler

    A shallow embedding of [src/app/page.tsx] (the browser side: filename
    derivation, the IndexedDB cache and [handleSubmit]) and of the route
    handler [POST] of [/api/pdf] (request validation, page sizes and the calls
    made to the headless-browser provider), with the properties the
    specification states about them.

    JavaScript strings are modelled as [string], one character per code unit;
    every string the code inspects character by character (the host name and
    the path of a parsed URL) is ASCII.  A [Blob] is its list of bytes. *)

From Stdlib Require Import Ascii String Strings.Byte NArith ZArith QArith Qround.
From stdpp Require Import gmap strings list fin_maps pretty.

Local Open Scope string_scope.
Local Open Scope list_scope.

(** ** JavaScript string operations used by the source *)

Module JsString.

(** [s.slice(n)] for [0 <= n]. *)
Fixpoint drop (n : nat) (s : string) : string :=
  match n, s with
  | O, _ => s
  | S _, "" => ""
  | S n', String _ s' => drop n' s'
  end.

(** [s.slice(0, n)]. *)
Fixpoint take (n : nat) (s : string) : string :=
  match n, s with
  | O, _ => ""
  | S _, "" => ""
  | S n', String c s' => String c (take n' s')
  end.

(** [s.replace(pat, rep)] with a string pattern: only the first occurrence
    of [pat] is replaced, wherever it stands. *)
Fixpoint replace_first (pat rep s : string) : string :=
  if String.prefix pat s then rep +:+ drop (String.length pat) s
  else match s with
       | "" => ""
       | String c s' => String c (replace_first pat rep s')
       end.

(** [s.replace(/c/g, rep)] and [s.replace(/[^...]/g, rep)]: every character
    selected by [p] is replaced by the character [rep]. *)
Fixpoint replace_chars (p : ascii → bool) (rep : ascii) (s : string) : string :=
  match s with
  | "" => ""
  | String c s' => String (if p c then rep else c) (replace_chars p rep s')
  end.

(** [s.replace(/c+/g, c)]: every maximal run of [c] becomes a single [c]. *)
Fixpoint collapse_runs (c : ascii) (s : string) : string :=
  match s with
  | "" => ""
  | String a s' =>
      if Ascii.eqb a c
      then match s' with
           | String b _ => if Ascii.eqb b c then collapse_runs c s'
                           else String a (collapse_runs c s')
           | "" => String a ""
           end
      else String a (collapse_runs c s')
  end.

(** The last character removed when it is [c] (the [c$] alternative). *)
Fixpoint strip_last (c : ascii) (s : string) : string :=
  match s with
  | "" => ""
  | String a "" => if Ascii.eqb a c then "" else s
  | String a s' => String a (strip_last c s')
  end.

(** [s.replace(/^c|c$/g, '')]: the global scan removes a leading [c], and
    then a trailing [c] at any later position. *)
Definition strip_ends (c : ascii) (s : string) : string :=
  match s with
  | "" => ""
  | String a s' => if Ascii.eqb a c then strip_last c s' else strip_last c s
  end.

(** The character class [[a-zA-Z0-9-]]. *)
Definition is_alnum_hyphen (c : ascii) : bool :=
  let n := N_of_ascii c in
  ((48 <=? n) && (n <=? 57) || (65 <=? n) && (n <=? 90)
   || (97 <=? n) && (n <=? 122) || (n =? 45))%N.

(** [c.toUpperCase()] and [c.toLowerCase()] on ASCII. *)
Definition upper_char (c : ascii) : ascii :=
  let n := N_of_ascii c in
  if ((97 <=? n) && (n <=? 122))%N then ascii_of_N (n - 32) else c.
Definition lower_char (c : ascii) : ascii :=
  let n := N_of_ascii c in
  if ((65 <=? n) && (n <=? 90))%N then ascii_of_N (n + 32) else c.

Fixpoint map (f : ascii → ascii) (s : string) : string :=
  match s with
  | "" => ""
  | String c s' => String (f c) (map f s')
  end.

Definition toUpperCase : string → string := map upper_char.
Definition toLowerCase : string → string := map lower_char.

(** Every character of [s] satisfies [p]. *)
Fixpoint all (p : ascii → bool) (s : string) : bool :=
  match s with
  | "" => true
  | String c s' => p c && all p s'
  end.

(** [s.includes(pat)]. *)
Fixpoint includes (pat s : string) : bool :=
  String.prefix pat s ||
  match s with
  | "" => false
  | String _ s' => includes pat s'
  end.

(** No two adjacent characters of [s] are both [c]. *)
Fixpoint no_double (c : ascii) (s : string) : bool :=
  match s with
  | String a ((String b _) as s') =>
      negb (Ascii.eqb a c && Ascii.eqb b c) && no_double c s'
  | _ => true
  end.

End JsString.

(** ** Page sizes and the cache key *)

(** [type PageSize = 'a4' | 'letter' | 'custom'] *)
Inductive PageSize := a4 | letter | custom.

Global Instance PageSize_eq_dec : EqDecision PageSize.
Proof. solve_decision. Defined.

(** The string a [PageSize] is at run time. *)
Definition pageSize_string (p : PageSize) : string :=
  match p with
  | a4 => "a4"
  | letter => "letter"
  | custom => "custom"
  end.

(** [generateCacheKey = (url, pageSize) => `${url}|${pageSize}`] *)
Definition generateCacheKey (url : string) (pageSize : PageSize) : string :=
  url +:+ "|" +:+ pageSize_string pageSize.

(** ** The platform and library functions the source calls

    The code relies on three things that are not part of the repository: the
    platform's [URL] constructor, the text of the [TypeError] it throws, and
    the messages the validation library attaches to its issues.  They are
    taken as an interface, so that every property below holds whatever the
    platform does; [Std] further down is an executable instance used to
    evaluate the code on concrete inputs. *)

(** The two fields of a parsed [URL] the code reads. *)
Record URL := { hostname : string; pathname : string }.

(** The issues [requestSchema.safeParse] can report. *)
Inductive ZodIssue :=
| invalid_type (path : list string) (expected received : string)
| invalid_url (path : list string)
| invalid_enum_value (path : list string) (received : string)
| unrecognized_keys (keys : list string).

Class Platform := {
  (** [new URL(s)]: [None] when the constructor throws. *)
  URL_new : string → option URL;
  (** The message of the error [new URL] throws. *)
  URL_error : string;
  (** [issue.message] as the validation library renders it. *)
  zod_message : ZodIssue → string;
}.

(** ** Filename derivation *)

Section Filename.
Context `{Platform}.

(** The body of the [try] block of [generateFilenameFromUrl], after
    [new URL(url)] returned [urlObj]. *)
Definition filenameOfURL (urlObj : URL) : string :=
  let hostname := JsString.replace_first "www." "" (hostname urlObj) in
  let pathname := pathname urlObj in
  let filename := hostname in
  let filename :=
    if negb (pathname =? "") && negb (pathname =? "/") then
      let cleanPath :=
        JsString.replace_chars (Ascii.eqb "/") "-"
          (JsString.strip_ends "/" pathname) in
      filename +:+ "-" +:+ cleanPath
    else filename in
  let filename :=
    JsString.take 100
      (JsString.strip_ends "-"
         (JsString.collapse_runs "-"
            (JsString.replace_chars (λ c, negb (JsString.is_alnum_hyphen c))
               "-" filename))) in
  if filename =? "" then "page" else filename.

(** [generateFilenameFromUrl]: the value returned.  The [catch] branch is
    taken exactly when [new URL] throws; nothing else in the [try] block
    can. *)
Definition generateFilenameFromUrl (url : string) : string :=
  match URL_new url with
  | Some urlObj => filenameOfURL urlObj
  | None => "page"
  end.

End Filename.

(** ** An executable platform

    [Std.parse] is a partial model of the platform's URL parser, used only to
    evaluate the code on concrete inputs.  On an absolute URL of the shape
    [scheme://[userinfo@]host[:port][/path][?query][#fragment]] whose host and
    path need no percent-encoding, IDNA or dot-segment processing it returns
    what the URL standard prescribes: the host lower-cased, and ["/"] for an
    empty path.  It refuses every other input; among them are all inputs
    without a colon, which the platform refuses too when no base URL is
    given. *)

Module Std.

(** The index of the first character of [s] selected by [p]. *)
Fixpoint find (p : ascii → bool) (s : string) : option nat :=
  match s with
  | "" => None
  | String c s' => if p c then Some 0 else S <$> find p s'
  end.

Definition is_alpha (c : ascii) : bool :=
  let n := N_of_ascii c in
  ((65 <=? n) && (n <=? 90) || (97 <=? n) && (n <=? 122))%N.

Definition is_scheme_char (c : ascii) : bool :=
  JsString.is_alnum_hyphen c || Ascii.eqb c "+" || Ascii.eqb c ".".

Definition is_host_char (c : ascii) : bool :=
  JsString.is_alnum_hyphen c || Ascii.eqb c ".".

Definition split_at (p : ascii → bool) (s : string) : string * string :=
  match find p s with
  | Some i => (JsString.take i s, JsString.drop i s)
  | None => (s, "")
  end.

(** The part of [s] after its last ["@"], or [s] when it has none. *)
Fixpoint after_last_at (s : string) : string :=
  match s with
  | "" => ""
  | String c s' =>
      if Ascii.eqb c "@" then after_last_at s'
      else if JsString.includes "@" s' then after_last_at s' else s
  end.

Definition parse (s : string) : option URL :=
  match find (Ascii.eqb ":") s with
  | None => None
  | Some i =>
      let scheme := JsString.take i s in
      let rest := JsString.drop i s in
      match scheme with
      | "" => None
      | String c _ =>
          if is_alpha c && JsString.all is_scheme_char scheme
             && String.prefix "://" rest then
            let after := JsString.drop 3 rest in
            let '(authority, tail) :=
              split_at (λ c, Ascii.eqb c "/" || Ascii.eqb c "?"
                             || Ascii.eqb c "#") after in
            let hostport := after_last_at authority in
            let '(host, _) := split_at (Ascii.eqb ":") hostport in
            let '(path, _) :=
              split_at (λ c, Ascii.eqb c "?" || Ascii.eqb c "#") tail in
            if negb (host =? "") && JsString.all is_host_char host then
              Some {| hostname := JsString.toLowerCase host;
                      pathname := if path =? "" then "/" else path |}
            else None
          else None
      end
  end.

(** Default messages of the validation library (version 3). *)
Definition message (i : ZodIssue) : string :=
  match i with
  | invalid_type _ _ "undefined" => "Required"
  | invalid_type _ expected received =>
      "Expected " +:+ expected +:+ ", received " +:+ received
  | invalid_url _ => "Invalid url"
  | invalid_enum_value _ received =>
      "Invalid enum value. Expected 'a4' | 'letter' | 'custom', received '"
      +:+ received +:+ "'"
  | unrecognized_keys keys =>
      "Unrecognized key(s) in object: "
      +:+ String.concat ", " ((λ k, "'" +:+ k +:+ "'") <$> keys)
  end.

Definition platform : Platform :=
  {| URL_new := parse; URL_error := "Invalid URL"; zod_message := message |}.

End Std.

(** ** The cache store and the browser state *)

Definition Blob := list Byte.byte.

(** The record [savePdfToCache] writes to the object store ['pdfs']. *)
Record CacheEntry := {
  cacheKey : string;
  url : string;
  pageSize : PageSize;
  blob : Blob;
  timestamp : Z;
}.

Inductive CacheStatus := hit | miss.

(** The React state of [Home] that [handleSubmit] writes. *)
Record State := {
  isLoading : bool;
  error : option string;
  cacheStatus : option CacheStatus;
  conversionCount : nat;
}.

(** What persists in the browser: the IndexedDB database ['pdfCache'] (absent
    until it is first opened; then its one object store ['pdfs'], whose key
    path is [cacheKey]), [localStorage], and the component's state. *)
Record Browser := {
  pdfs : option (gmap string CacheEntry);
  localStorage : gmap string string;
  state : State;
}.

Definition with_pdfs (f : option (gmap string CacheEntry) → option (gmap string CacheEntry))
    (b : Browser) : Browser :=
  {| pdfs := f (pdfs b); localStorage := localStorage b; state := state b |}.
Definition with_localStorage (f : gmap string string → gmap string string)
    (b : Browser) : Browser :=
  {| pdfs := pdfs b; localStorage := f (localStorage b); state := state b |}.
Definition with_state (f : State → State) (b : Browser) : Browser :=
  {| pdfs := pdfs b; localStorage := localStorage b; state := f (state b) |}.

(** The records of the object store, none when the database is absent. *)
Definition records (b : Browser) : gmap string CacheEntry :=
  default ∅ (pdfs b).

(** What a JavaScript [throw] carries, as far as [err instanceof Error] and
    [err.message] tell. *)
Inductive Thrown :=
| JsError (message : string)
| JsOther.

(** The body of the request [fetch] sends: [JSON.stringify({ url, pageSize })]. *)
Record RenderRequest := { req_url : string; req_pageSize : PageSize }.

(** The observable interactions of the browser side, in the order they
    happen. *)
Inductive Event :=
| IDBOpen                                      (* indexedDB.open('pdfCache', 1) *)
| StoreGet (key : string)                      (* store.get(cacheKey) *)
| StorePut (entry : CacheEntry)                (* store.put(cacheEntry) *)
| ConsoleError (label : string) (err : Thrown) (* console.error(label, error) *)
| Fetch (path : string) (body : RenderRequest) (* fetch('/api/pdf', { method: 'POST', ... }) *)
| Download (filename : string) (content : Blob) (* the click on the <a download> link *)
| LocalStorageSet (key value : string).

(** What [handleSubmit] observes of a [Response]. *)
Record Response := {
  status : Z;
  (** [(await response.json()).error || 'Failed to generate PDF'] up to the
      fallback: [inl e] when reading the payload throws (the body is not
      JSON, or is [null]); [inr (Some m)] when the payload has a truthy
      [error] that [new Error] renders as [m]; [inr None] otherwise. *)
  errorData : Thrown + option string;
  (** [await response.blob()] *)
  content : Thrown + Blob;
}.

(** [response.ok] *)
Definition ok (r : Response) : bool := ((200 <=? status r) && (status r <=? 299))%Z.

(** How the two asynchronous requests on the database end. *)
Record StoreIO := {
  opens : bool;      (* indexedDB.open: onsuccess (true) or onerror *)
  completes : bool;  (* the get or put request: onsuccess (true) or onerror *)
}.

(** The outside world during one run of [handleSubmit]. *)
Record Env := {
  read_io : StoreIO;             (* the database during getPdfFromCache *)
  network : Thrown + Response;   (* fetch: rejects, or resolves to a response *)
  write_io : StoreIO;            (* the database during savePdfToCache *)
  now : Z;                       (* Date.now() *)
}.

(** ** Effects: browser state, emitted events, exceptions *)

Inductive Completion (A : Type) :=
| Normal (a : A)
| Throw (e : Thrown).
Arguments Normal {A} a.
Arguments Throw {A} e.

Definition Js (A : Type) : Type := Browser → Completion A * Browser * list Event.

Global Instance Js_ret : MRet Js := λ A a b, (Normal a, b, []).

Global Instance Js_bind : MBind Js := λ A B k m b,
  match m b with
  | (Normal a, b1, t1) => let '(r, b2, t2) := k a b1 in (r, b2, t1 ++ t2)
  | (Throw e, b1, t1) => (Throw e, b1, t1)
  end.

Definition throw {A} (e : Thrown) : Js A := λ b, (Throw e, b, []).
Definition emit (ev : Event) : Js unit := λ b, (Normal tt, b, [ev]).
Definition update (f : Browser → Browser) : Js unit := λ b, (Normal tt, f b, []).
Definition read {A} (f : Browser → A) : Js A := λ b, (Normal (f b), b, []).

(** [try { body } catch (e) { handler }] *)
Definition try_catch {A} (body : Js A) (handler : Thrown → Js A) : Js A := λ b,
  match body b with
  | (Normal a, b1, t1) => (Normal a, b1, t1)
  | (Throw e, b1, t1) => let '(r, b2, t2) := handler e b1 in (r, b2, t1 ++ t2)
  end.

(** [try { body } finally { fin }] *)
Definition try_finally {A} (body : Js A) (fin : Js unit) : Js A := λ b,
  let '(r, b1, t1) := body b in
  match fin b1 with
  | (Normal _, b2, t2) => (r, b2, t1 ++ t2)
  | (Throw e, b2, t2) => (Throw e, b2, t1 ++ t2)
  end.

(** The final browser state and the events of a run. *)
Definition after {A} (r : Completion A * Browser * list Event) : Browser := r.1.2.
Definition events {A} (r : Completion A * Browser * list Event) : list Event := r.2.
Definition outcome {A} (r : Completion A * Browser * list Event) : Completion A := r.1.1.

(** ** The IndexedDB cache *)

(** [request.onupgradeneeded]: the object store is created when the database
    does not have it yet. *)
Definition onupgradeneeded (db : option (gmap string CacheEntry))
    : option (gmap string CacheEntry) :=
  match db with
  | None => Some ∅
  | Some store => Some store
  end.

(** [initializeDB]: a successful open upgrades the database on first use; a
    failed open rejects. *)
Definition initializeDB (io : StoreIO) : Js unit :=
  emit IDBOpen ;;
  if opens io then update (with_pdfs onupgradeneeded)
  else throw (JsError "Failed to open database").

Definition console_error (label : string) (err : Thrown) : Js unit :=
  emit (ConsoleError label err).

(** [savePdfToCache] *)
Definition savePdfToCache (io : StoreIO) (now : Z)
    (url : string) (pageSize : PageSize) (blob : Blob) : Js unit :=
  try_catch
    (initializeDB io ;;
     let cacheEntry :=
       {| cacheKey := generateCacheKey url pageSize;
          url := url;
          pageSize := pageSize;
          blob := blob;
          timestamp := now |} in
     emit (StorePut cacheEntry) ;;
     if completes io then
       update (with_pdfs (fmap (insert (cacheKey cacheEntry) cacheEntry)))
     else throw (JsError "Failed to save PDF to cache"))
    (λ error, console_error "Error saving to cache:" error).

(** [getPdfFromCache] *)
Definition getPdfFromCache (io : StoreIO)
    (url : string) (pageSize : PageSize) : Js (option Blob) :=
  try_catch
    (initializeDB io ;;
     let cacheKey := generateCacheKey url pageSize in
     emit (StoreGet cacheKey) ;;
     if completes io then
       result ← read (λ b, records b !! cacheKey);
       mret (blob <$> result)
     else throw (JsError "Failed to get PDF from cache"))
    (λ error, console_error "Error retrieving from cache:" error ;; mret None).

(** ** The conversion flow *)

Definition set_isLoading (v : bool) (s : State) : State :=
  {| isLoading := v; error := error s; cacheStatus := cacheStatus s;
     conversionCount := conversionCount s |}.
Definition set_error (v : option string) (s : State) : State :=
  {| isLoading := isLoading s; error := v; cacheStatus := cacheStatus s;
     conversionCount := conversionCount s |}.
Definition set_cacheStatus (v : option CacheStatus) (s : State) : State :=
  {| isLoading := isLoading s; error := error s; cacheStatus := v;
     conversionCount := conversionCount s |}.
Definition set_conversionCount (v : nat) (s : State) : State :=
  {| isLoading := isLoading s; error := error s; cacheStatus := cacheStatus s;
     conversionCount := v |}.

Definition setIsLoading (v : bool) : Js unit := update (with_state (set_isLoading v)).
Definition setError (v : option string) : Js unit := update (with_state (set_error v)).
Definition setCacheStatus (v : option CacheStatus) : Js unit :=
  update (with_state (set_cacheStatus v)).
Definition setConversionCount (v : nat) : Js unit :=
  update (with_state (set_conversionCount v)).

(** [fetch(path, { method: 'POST', ..., body: JSON.stringify(body) })] *)
Definition fetch (path : string) (body : RenderRequest)
    (answer : Thrown + Response) : Js Response :=
  emit (Fetch path body) ;;
  match answer with
  | inl e => throw e
  | inr response => mret response
  end.

(** [await v] for a promise that settles as [v] says. *)
Definition await {A} (v : Thrown + A) : Js A :=
  match v with
  | inl e => throw e
  | inr a => mret a
  end.

Section Flow.
Context `{Platform}.

(** [handleDownload]: the file is saved under the derived name; the
    [catch] branch of [generateFilenameFromUrl] logs first. *)
Definition handleDownload (blob : Blob) (url : string) : Js unit :=
  (if URL_new url is None
   then console_error "Error generating filename:" (JsError URL_error)
   else mret tt) ;;
  let filename := generateFilenameFromUrl url +:+ ".pdf" in
  emit (Download filename blob).

(** [updateConversionCount], with [localStorage.setItem] taken to succeed. *)
Definition updateConversionCount : Js unit :=
  conversionCount ← read (λ b, conversionCount (state b));
  let newCount := conversionCount + 1 in
  setConversionCount newCount ;;
  emit (LocalStorageSet "conversionCount" (pretty newCount)) ;;
  update (with_localStorage (insert "conversionCount" (pretty newCount))).

(** [handleSubmit], for the [url] and [pageSize] of the component's state. *)
Definition handleSubmit (env : Env) (url : string) (pageSize : PageSize) : Js unit :=
  if url =? "" then mret tt
  else
    setIsLoading true ;;
    setError None ;;
    setCacheStatus None ;;
    try_finally
      (try_catch
         ((* Check cache first *)
          cachedPdf ← getPdfFromCache (read_io env) url pageSize;
          match cachedPdf with
          | Some cachedPdf =>
              (* Use cached PDF if available *)
              setCacheStatus (Some hit) ;;
              handleDownload cachedPdf url
          | None =>
              (* Otherwise fetch from server *)
              setCacheStatus (Some miss) ;;
              response ← fetch "/api/pdf"
                           {| req_url := url; req_pageSize := pageSize |}
                           (network env);
              if negb (ok response) then
                errorData ← await (errorData response);
                throw (JsError (default "Failed to generate PDF" errorData))
              else
                blob ← await (content response);
                (* Save to cache *)
                savePdfToCache (write_io env) (now env) url pageSize blob ;;
                handleDownload blob url
          end ;;
          updateConversionCount)
         (λ err, setError (Some match err with
                                | JsError message => message
                                | JsOther => "An error occurred"
                                end)))
      (setIsLoading false).

End Flow.

(** ** The route handler of [/api/pdf] *)

(** A parsed JSON value; [JObject] lists the own properties of the object,
    one per key. *)
#[local] Unset Elimination Schemes.
Inductive json :=
| JNull
| JBool (b : bool)
| JNumber (n : Q)
| JString (s : string)
| JArray (items : list json)
| JObject (members : list (string * json)).
#[local] Set Elimination Schemes.

(** The name the validation library gives to the type of a value. *)
Definition parsedType (v : option json) : string :=
  match v with
  | None => "undefined"
  | Some JNull => "null"
  | Some (JBool _) => "boolean"
  | Some (JNumber _) => "number"
  | Some (JString _) => "string"
  | Some (JArray _) => "array"
  | Some (JObject _) => "object"
  end.

(** [data[key]] for an object given by its members. *)
Fixpoint member (key : string) (members : list (string * json)) : option json :=
  match members with
  | [] => None
  | (k, v) :: rest => if k =? key then Some v else member key rest
  end.

(** [z.enum(['a4', 'letter', 'custom'])] on a string. *)
Definition pageSize_of_string (s : string) : option PageSize :=
  if s =? "a4" then Some a4
  else if s =? "letter" then Some letter
  else if s =? "custom" then Some custom
  else None.

(** [const pageSizes = { a4: ..., letter: ..., custom: ... }], in inches. *)
Record Dimensions := { width : Q; height : Q }.

Definition pageSizes (p : PageSize) : Dimensions :=
  match p with
  | a4 => {| width := 8.27; height := 11.69 |}
  | letter => {| width := 8.5; height := 11 |}
  | custom => {| width := 8.27; height := 11.69 |}
  end.

(** [Math.round]: the nearest integer, halves upwards.  The products below
    are taken exactly where JavaScript uses binary64; none of them is close
    enough to a half for the rounding to differ. *)
Definition Math_round (x : Q) : Z := Qfloor (x + (1 # 2))%Q.

Record Margin := { top : string; right : string; bottom : string; left : string }.

(** The calls made to the headless-browser provider. *)
Inductive ProviderCall :=
| connect (browserWSEndpoint : string)          (* puppeteer.connect({ browserWSEndpoint }) *)
| newPage                                       (* browser.newPage() *)
| setViewport (width height : Z)                (* page.setViewport({ width, height }) *)
| goto (url : string) (waitUntil : string)      (* page.goto(url, { waitUntil }) *)
| evaluate_images_loaded                        (* page.evaluate(...): wait for every <img> *)
| createPDFStream (format : string) (printBackground : bool) (margin : Margin).

Inductive ServerEvent :=
| Call (c : ProviderCall)
| ServerConsoleError (message : string)
| ServerConsoleLog (message : string).

(** What the handler answers. *)
Inductive ServerResponse :=
| NextResponse_json (error : string) (status : Z)          (* NextResponse.json({ error }, { status }) *)
| NextResponse_stream (stream : Blob) (contentType : string). (* new NextResponse(stream, { headers }) *)

(** The server's surroundings during one request. *)
Record ServerEnv := {
  BROWSERLESS_TOKEN : option string;   (* process.env.BROWSERLESS_TOKEN *)
  succeeds : ProviderCall → bool;      (* whether a call to the provider returns or throws *)
  pdf : Blob;                          (* the document the provider streams back *)
}.

(** The provider calls of the handler, run in order up to the first one that
    throws: the events, and whether all returned. *)
Fixpoint perform (succeeds : ProviderCall → bool) (calls : list ProviderCall)
    : list ServerEvent * bool :=
  match calls with
  | [] => ([], true)
  | c :: rest =>
      if succeeds c then
        let '(evs, all) := perform succeeds rest in (Call c :: evs, all)
      else ([Call c], false)
  end.

Section Server.
Context `{Platform}.

(** The issues of [requestSchema.safeParse(body)], in the order the library
    reports them: the [url] field, the [pageSize] field, then the keys the
    strict object does not know. *)
Definition url_issues (v : option json) : list ZodIssue :=
  match v with
  | Some (JString s) => if URL_new s is None then [invalid_url ["url"]] else []
  | _ => [invalid_type ["url"] "string" (parsedType v)]
  end.

Definition pageSize_issues (v : option json) : list ZodIssue :=
  match v with
  | None => []   (* .default('a4') *)
  | Some (JString s) =>
      if pageSize_of_string s is None then [invalid_enum_value ["pageSize"] s] else []
  | _ => [invalid_type ["pageSize"] "'a4' | 'letter' | 'custom'" (parsedType v)]
  end.

Definition strict_issues (members : list (string * json)) : list ZodIssue :=
  match filter (λ k, k ≠ "url" ∧ k ≠ "pageSize") (members.*1) with
  | [] => []
  | keys => [unrecognized_keys keys]
  end.

Definition issues (body : json) : list ZodIssue :=
  match body with
  | JObject members =>
      url_issues (member "url" members)
      ++ pageSize_issues (member "pageSize" members)
      ++ strict_issues members
  | _ => [invalid_type [] "object" (parsedType (Some body))]
  end.

(** [requestSchema.safeParse(body)]: the first issue ([result.error.errors[0]]),
    or the parsed data.  A body without issues is an object whose [url] is a
    string and whose [pageSize] is absent or one of the three, so the two
    last branches are never taken. *)
Definition safeParse (body : json) : ZodIssue + RenderRequest :=
  match issues body with
  | issue :: _ => inl issue
  | [] =>
      match body with
      | JObject members =>
          match member "url" members, member "pageSize" members with
          | Some (JString url), Some (JString s) =>
              inr {| req_url := url;
                     req_pageSize := default a4 (pageSize_of_string s) |}
          | Some (JString url), _ => inr {| req_url := url; req_pageSize := a4 |}
          | _, _ => inl (invalid_type ["url"] "string" "undefined")
          end
      | _ => inl (invalid_type [] "object" (parsedType (Some body)))
      end
  end.

(** The provider calls the handler makes for a validated request. *)
Definition render_calls (token : string) (url : string) (pageSize : PageSize)
    : list ProviderCall :=
  let size := pageSizes pageSize in
  [ connect ("wss://production-sfo.browserless.io?token=" +:+ token);
    newPage;
    (* Convert inches to pixels *)
    setViewport (Math_round (width size * 96)%Q) (Math_round (height size * 96)%Q);
    goto url "domcontentloaded";
    evaluate_images_loaded;
    createPDFStream (JsString.toUpperCase (pageSize_string pageSize)) true
      {| top := "20px"; right := "20px"; bottom := "20px"; left := "20px" |} ].

(** [POST]: [body] is what [request.json()] yields, [None] when it throws. *)
Definition POST (env : ServerEnv) (body : option json)
    : ServerResponse * list ServerEvent :=
  let failed evs :=
    (NextResponse_json "Failed to generate PDF" 500,
     evs ++ [ServerConsoleError "PDF generation error:"]) in
  match body with
  | None => failed []
  | Some body =>
      match safeParse body with
      | inl error =>
          (NextResponse_json ("Invalid request: " +:+ zod_message error) 400, [])
      | inr data =>
          match BROWSERLESS_TOKEN env with
          | None | Some "" =>
              (NextResponse_json
                 "Server configuration error: Browserless token not found" 500,
               [ServerConsoleError
                  "Browserless token is missing from environment variables"])
          | Some browserlessToken =>
              match perform (succeeds env)
                      (render_calls browserlessToken (req_url data) (req_pageSize data)) with
              | (evs, true) =>
                  (NextResponse_stream (pdf env) "application/pdf",
                   evs ++ [ServerConsoleLog "Stream:"])
              | (evs, false) => failed evs
              end
          end
      end
  end.

(** The response as [handleSubmit] observes it.  The handler sends an error
    payload with status 400 or 500 only, and the document with status 200,
    so the flow reads [errorData] of the former and [content] of the
    latter; the field it does not read is filled with the failure to parse
    a document as JSON, and with no bytes. *)
Definition observed (r : ServerResponse) : Response :=
  match r with
  | NextResponse_json error status =>
      {| status := status;
         errorData := inr (if error =? "" then None else Some error);
         content := inr [] |}
  | NextResponse_stream stream _ =>
      {| status := 200;
         errorData := inl (JsError "Unexpected token");
         content := inr stream |}
  end.

End Server.

(** The request as it reaches the handler: [JSON.stringify({ url, pageSize })]
    read back by [request.json()]. *)
Definition request_body (req : RenderRequest) : json :=
  JObject [("url", JString (req_url req));
           ("pageSize", JString (pageSize_string (req_pageSize req)))].

(** The answer of [fetch] when the request reaches this handler. *)
Definition served `{Platform} (env : ServerEnv) (req : RenderRequest) : Thrown + Response :=
  inr (observed (POST env (Some (request_body req))).1).

(** ** Reading a run *)

(** The requests sent to the render endpoint, the contents handed to the
    user, and the records written to the store, in order. *)
Definition fetches (t : list Event) : list RenderRequest :=
  omap (λ ev, if ev is Fetch _ body then Some body else None) t.
Definition downloads (t : list Event) : list Blob :=
  omap (λ ev, if ev is Download _ content then Some content else None) t.
Definition puts (t : list Event) : list CacheEntry :=
  omap (λ ev, if ev is StorePut entry then Some entry else None) t.

Definition is_put (ev : Event) : bool := if ev is StorePut _ then true else false.

(** No write to the store happens once a file has been handed to the user. *)
Fixpoint no_put_after_download (t : list Event) : bool :=
  match t with
  | [] => true
  | Download _ _ :: t' => forallb (λ ev, negb (is_put ev)) t' && no_put_after_download t'
  | _ :: t' => no_put_after_download t'
  end.

(** The surroundings [env] with a store whose reads complete, and the browser
    [b] without a record under [k]: together, a plain cache miss. *)
Definition readable (env : Env) : Env :=
  {| read_io := {| opens := true; completes := true |};
     network := network env; write_io := write_io env; now := now env |}.
Definition without (k : string) (b : Browser) : Browser :=
  with_pdfs (fmap (delete k)) b.

(** The browser states the application can be in: a profile without the
    database, any state after a run of [handleSubmit], and any state after
    the user cleared the site's storage. *)
Inductive reachable `{Platform} : Browser → Prop :=
| reachable_fresh ls st :
    reachable {| pdfs := None; localStorage := ls; state := st |}
| reachable_submit env url pageSize b :
    reachable b → reachable (after (handleSubmit env url pageSize b))
| reachable_cleared b :
    reachable b → reachable (with_pdfs (λ _, None) b).

(** Every record is stored under its own [cacheKey], which is the key of its
    [url] and [pageSize], and its [url] is not empty. *)
Definition keyed (b : Browser) : Prop :=
  ∀ k e, records b !! k = Some e →
    cacheKey e = k ∧ k = generateCacheKey (url e) (pageSize e) ∧ url e ≠ "".

(** ** The conversion count across reloads *)

(** [parseInt(s, 10)] on an ASCII string: leading white space is skipped, a
    sign is read, then decimal digits up to the first other character;
    [None] is [NaN] (no digit).  The value is the exact integer; JavaScript
    rounds it to a double, which changes nothing below 2^53. *)
Module ParseInt.

Definition digit (c : ascii) : option N :=
  let n := N_of_ascii c in
  if ((48 <=? n) && (n <=? 57))%N then Some (n - 48)%N else None.

Fixpoint digits (acc : option N) (s : string) : option N :=
  match s with
  | "" => acc
  | String c s' =>
      match digit c with
      | Some d => digits (Some (default 0 acc * 10 + d)%N) s'
      | None => acc
      end
  end.

Fixpoint trim (s : string) : string :=
  match s with
  | "" => ""
  | String c s' => if Ascii.is_space c then trim s' else s
  end.

Definition parseInt (s : string) : option Z :=
  match trim s with
  | String "-" s' => Z.opp <$> (Z.of_N <$> digits None s')
  | String "+" s' => Z.of_N <$> digits None s'
  | s' => Z.of_N <$> digits None s'
  end.

End ParseInt.

(** The effect [Home] runs when it mounts:
    [const count = localStorage.getItem('conversionCount');
     if (count) setConversionCount(parseInt(count, 10))].
    The component state holds the count as a natural number, so the effect is
    given by the number it hands to [setConversionCount]: [None] when it
    hands over nothing (no item, or an empty one), [Some None] for [NaN]. *)
Definition mountedCount (b : Browser) : option (option Z) :=
  match localStorage b !! "conversionCount" with
  | None => None
  | Some "" => None
  | Some count => Some (ParseInt.parseInt count)
  end.

(** ** The flow before the cache was added

    The first version of [page.tsx]: [handleDownload] takes the response and
    reads its body itself, and [handleSubmit] always asks the server. *)
Module Uncached.
Section Flow.
Context `{Platform}.

(** [handleDownload(response, url)] *)
Definition handleDownload (response : Response) (url : string) : Js unit :=
  blob ← await (content response);
  (if URL_new url is None
   then console_error "Error generating filename:" (JsError URL_error)
   else mret tt) ;;
  let filename := generateFilenameFromUrl url +:+ ".pdf" in
  emit (Download filename blob).

(** [handleSubmit] *)
Definition handleSubmit (env : Env) (url : string) (pageSize : PageSize) : Js unit :=
  if url =? "" then mret tt
  else
    setIsLoading true ;;
    setError None ;;
    try_finally
      (try_catch
         (response ← fetch "/api/pdf"
                      {| req_url := url; req_pageSize := pageSize |}
                      (network env);
          (if negb (ok response) then
             errorData ← await (errorData response);
             throw (JsError (default "Failed to generate PDF" errorData))
           else mret tt) ;;
          handleDownload response url ;;
          updateConversionCount)
         (λ err, setError (Some match err with
                                | JsError message => message
                                | JsOther => "An error occurred"
                                end)))
      (setIsLoading false).

End Flow.
End Uncached.

(** The provider calls among the events of the handler, in order. *)
Definition calls_of (evs : list ServerEvent) : list ProviderCall :=
  omap (λ ev, if ev is Call c then Some c else None) evs.

(** ** The ends of a string *)

(** The last character of a string. *)
Fixpoint last_char (s : string) : option ascii :=
  match s with
  | "" => None
  | String a "" => Some a
  | String _ s' => last_char s'
  end.

Definition first_char (s : string) : option ascii :=
  match s with
  | "" => None
  | String a _ => Some a
  end.

(** [s] without a first character [c]. *)
Definition drop_first (c : ascii) (s : string) : string :=
  match s with
  | "" => ""
  | String a s' => if Ascii.eqb a c then s' else s
  end.

(** ** The derived filename in the words of the specification

    The name a URL is given, as the specification describes it: the runs of
    ASCII letters and digits of the host name (without a leading ["www."])
    and then of the path, joined by single hyphens and cut to 100
    characters; ["page"] when nothing is left. *)

(** The character class [[a-zA-Z0-9]]. *)
Definition is_alnum (c : ascii) : bool :=
  let n := N_of_ascii c in
  ((48 <=? n) && (n <=? 57) || (65 <=? n) && (n <=? 90)
   || (97 <=? n) && (n <=? 122))%N.

Definition starts_alnum (s : string) : bool :=
  match s with
  | "" => false
  | String c _ => is_alnum c
  end.

(** The maximal runs of letters and digits of [s], in order. *)
Fixpoint alnum_words (s : string) : list string :=
  match s with
  | "" => []
  | String c s' =>
      if is_alnum c then
        match alnum_words s' with
        | w :: ws => if starts_alnum s' then String c w :: ws
                     else String c "" :: w :: ws
        | [] => [String c ""]
        end
      else alnum_words s'
  end.

Definition derivedName (host path : string) : string :=
  let name :=
    JsString.take 100 (String.concat "-" (alnum_words host ++ alnum_words path)) in
  if name =? "" then "page" else name.

(** ** Sample surroundings, for evaluating the code *)

Module Sample.

(** The bytes [%PDF]. *)
Definition document : Blob := [x25; x50; x44; x46].

Definition idle : State :=
  {| isLoading := false; error := None; cacheStatus := None; conversionCount := 0 |}.

(** A browser profile that never opened the site. *)
Definition fresh : Browser := {| pdfs := None; localStorage := ∅; state := idle |}.

Definition working : StoreIO := {| opens := true; completes := true |}.
Definition blocked : StoreIO := {| opens := false; completes := false |}.
Definition failing : StoreIO := {| opens := true; completes := false |}.

(** A successful render. *)
Definition rendered : Response :=
  {| status := 200; errorData := inl (JsError "Unexpected token"); content := inr document |}.

(** A failed render, as the handler reports it. *)
Definition refused : Response :=
  {| status := 500; errorData := inr (Some "Failed to generate PDF"); content := inr [] |}.

Definition online : Env :=
  {| read_io := working; network := inr rendered; write_io := working;
     now := 1700000000000 |}.
Definition offline : Env :=
  {| read_io := working; network := inl (JsError "Failed to fetch");
     write_io := working; now := 1700000000001 |}.
(** The store cannot be written. *)
Definition read_only : Env :=
  {| read_io := working; network := inr rendered; write_io := failing;
     now := 1700000000002 |}.
(** The store cannot be opened for reading. *)
Definition unreadable : Env :=
  {| read_io := blocked; network := inr rendered; write_io := working;
     now := 1700000000003 |}.
Definition render_fails : Env :=
  {| read_io := working; network := inr refused; write_io := working;
     now := 1700000000004 |}.

(** The browser after one successful conversion of [https://example.com/]. *)
Definition cached : Browser :=
  after (@handleSubmit Std.platform online "https://example.com/" a4 fresh).

(** A server with its token, whose provider works. *)
Definition server : ServerEnv :=
  {| BROWSERLESS_TOKEN := Some "token"; succeeds := λ _, true; pdf := document |}.
(** A server whose provider fails to navigate. *)
Definition server_down : ServerEnv :=
  {| BROWSERLESS_TOKEN := Some "token";
     succeeds := λ c, if c is goto _ _ then false else true;
     pdf := document |}.

(** The surroundings in which the request reaches the route handler run
    by [server]. *)
Definition through (server : ServerEnv) (url : string) (ps : PageSize) : Env :=
  {| read_io := working;
     network := @served Std.platform server {| req_url := url; req_pageSize := ps |};
     write_io := working; now := 1700000000005 |}.

End Sample.

(** * Properties *)

(** ** The executable platform on the inputs used below *)

Example parse_sample :
  Std.parse "https://www.Example.com/foo/bar/"
  = Some {| hostname := "www.example.com"; pathname := "/foo/bar/" |}.
Proof. reflexivity. Qed.

Example parse_no_scheme : Std.parse "not a url" = None ∧ Std.parse "not-a-url" = None.
Proof. split; reflexivity. Qed.

Example parse_root :
  Std.parse "https://example.com" = Some {| hostname := "example.com"; pathname := "/" |}.
Proof. reflexivity. Qed.

(** The first ["www."] is removed wherever it stands in the host name. *)
Example filename_inner_www :
  @generateFilenameFromUrl Std.platform "https://notwww.com/a" = "notcom-a".
Proof. reflexivity. Qed.


(** ** Strings *)

Lemma append_cons (c : ascii) (s t : string) : String c s +:+ t = String c (s +:+ t).
Proof. reflexivity. Qed.

Lemma append_nil_l (s : string) : "" +:+ s = s.
Proof. reflexivity. Qed.

(** No page size contains the separator of the cache key. *)
Lemma pageSize_string_no_pipe (p : PageSize) (s t : string) :
  pageSize_string p ≠ s +:+ "|" +:+ t.
Proof.
  destruct p; unfold pageSize_string;
    do 7 (destruct s as [|? s]; [by rewrite append_nil_l|];
          rewrite append_cons; intros [= <- Hs]; revert Hs);
    by destruct s.
Qed.

(** A string that ends in ["|"] and a page size splits in one way only. *)
Lemma generateCacheKey_inj (u1 u2 : string) (p1 p2 : PageSize) :
  generateCacheKey u1 p1 = generateCacheKey u2 p2 → u1 = u2 ∧ p1 = p2.
Proof.
  unfold generateCacheKey. revert u2.
  induction u1 as [|c u1 IH]; intros [|d u2]; rewrite ?append_cons, ?append_nil_l.
  - intros [= Hp]. split; [done|]. by destruct p1, p2.
  - intros [= <- Hp]. by apply pageSize_string_no_pipe in Hp.
  - intros [= -> Hp]. symmetry in Hp. by apply pageSize_string_no_pipe in Hp.
  - intros [= -> Hk]. by destruct (IH _ Hk) as [-> ->].
Qed.

(** C3. The cache key is a function of [(url, pageSize)] alone, so equal
    inputs give the equal key; and it is injective: two keys are equal only
    when both the url and the page size are, hence a different url gives a
    different key whatever the page sizes, and for a fixed url a different
    page size gives a different key. *)
Theorem generateCacheKey_deterministic_injective :
  (∀ u1 u2 p1 p2,
     generateCacheKey u1 p1 = generateCacheKey u2 p2 ↔ u1 = u2 ∧ p1 = p2)
  ∧ (∀ u1 u2 p1 p2, u1 ≠ u2 → generateCacheKey u1 p1 ≠ generateCacheKey u2 p2)
  ∧ (∀ u p1 p2, p1 ≠ p2 → generateCacheKey u p1 ≠ generateCacheKey u p2).
Proof.
  split_and!.
  - intros u1 u2 p1 p2. split; [apply generateCacheKey_inj|].
    by intros [-> ->].
  - intros u1 u2 p1 p2 Hne Hk. by apply generateCacheKey_inj in Hk as [? _].
  - intros u p1 p2 Hne Hk. by apply generateCacheKey_inj in Hk as [_ ?].
Qed.

Lemma generateCacheKey_deterministic_injective_witness :
  generateCacheKey "https://a.com" a4 = "https://a.com|a4"
  ∧ generateCacheKey "https://a.com" a4 ≠ generateCacheKey "https://b.com" a4
  ∧ generateCacheKey "https://a.com" a4 ≠ generateCacheKey "https://a.com" letter.
Proof.
  destruct generateCacheKey_deterministic_injective as (_ & Hurl & Hsize).
  split_and!.
  - reflexivity.
  - apply Hurl. discriminate.
  - apply Hsize. discriminate.
Defined.

(** ** The string operations of the filename derivation *)

Section JsStringFacts.
Import JsString.
Variable p : ascii → bool.
Variable c : ascii.

Lemma all_replace_chars (q : ascii → bool) (s : string) :
  p c = true → (∀ a, q a = false → p a = true) →
  all p (replace_chars q c s) = true.
Proof.
  intros Hc Hq. induction s as [|a s IH]; [done|]. cbn.
  rewrite IH, andb_true_r. destruct (q a) eqn:Ha; auto.
Qed.

Lemma all_collapse_runs (s : string) :
  all p s = true → all p (collapse_runs c s) = true.
Proof.
  induction s as [|a s IH]; [done|]. cbn [all collapse_runs].
  intros [Ha Hs]%andb_true_iff. specialize (IH Hs).
  destruct (Ascii.eqb a c); [destruct s as [|b s]|]; cbn [all].
  - by rewrite Ha.
  - destruct (Ascii.eqb b c); [done|]. cbn [all]. by rewrite Ha.
  - by rewrite Ha.
Qed.

Lemma all_strip_last (s : string) :
  all p s = true → all p (strip_last c s) = true.
Proof.
  induction s as [|a s IH]; [done|]. cbn [all strip_last].
  intros [Ha Hs]%andb_true_iff. destruct s as [|b s].
  - destruct (Ascii.eqb a c); [done|]. cbn. by rewrite Ha.
  - cbn [all]. by rewrite Ha, IH.
Qed.

Lemma all_strip_ends (s : string) :
  all p s = true → all p (strip_ends c s) = true.
Proof.
  destruct s as [|a s]; [done|]. unfold strip_ends. intros Hs.
  destruct (Ascii.eqb a c); apply all_strip_last; [|done].
  by apply andb_true_iff in Hs as [_ ?].
Qed.

Lemma all_take (n : nat) (s : string) :
  all p s = true → all p (take n s) = true.
Proof.
  revert s. induction n as [|n IH]; intros [|a s]; try done. cbn.
  intros [Ha Hs]%andb_true_iff. by rewrite Ha, IH.
Qed.

Lemma length_take (n : nat) (s : string) : (String.length (take n s) ≤ n)%nat.
Proof.
  revert s. induction n as [|n IH]; intros [|a s]; cbn; try lia.
  specialize (IH s). lia.
Qed.

Lemma no_double_cons (a : ascii) (s : string) :
  no_double c s = true →
  (Ascii.eqb a c = false ∨ ∀ b s', s = String b s' → Ascii.eqb b c = false) →
  no_double c (String a s) = true.
Proof.
  intros Hs Hor. destruct s as [|b s]; [done|]. cbn [no_double].
  cbn [no_double] in Hs. rewrite Hs, andb_true_r.
  destruct Hor as [->|Hb]; [done|]. rewrite (Hb b s eq_refl).
  by rewrite andb_false_r.
Qed.

Lemma no_double_tail (a : ascii) (s : string) :
  no_double c (String a s) = true → no_double c s = true.
Proof.
  destruct s as [|b s]; [done|]. cbn [no_double].
  by intros [_ ?]%andb_true_iff.
Qed.

Lemma no_double_collapse_runs (s : string) :
  no_double c (collapse_runs c s) = true.
Proof.
  induction s as [|a s IH]; [done|]. cbn [collapse_runs].
  destruct (Ascii.eqb a c) eqn:Ha.
  - destruct s as [|b s]; [done|]. destruct (Ascii.eqb b c) eqn:Hb; [done|].
    apply no_double_cons; [done|]. right. intros b' s'.
    cbn [collapse_runs]. rewrite Hb. by intros [= <- _].
  - apply no_double_cons; auto.
Qed.

Lemma no_double_strip_last (s : string) :
  no_double c s = true → no_double c (strip_last c s) = true.
Proof.
  induction s as [|a s IH]; [done|]. intros Hs.
  pose proof (no_double_tail _ _ Hs) as Ht. cbn [strip_last].
  destruct s as [|b s]; [by destruct (Ascii.eqb a c)|].
  apply no_double_cons; [auto|].
  cbn [no_double] in Hs. apply andb_true_iff in Hs as [Hab _].
  destruct (Ascii.eqb a c); [right|by left].
  intros b' s'. destruct s as [|b'' s].
  + cbn. destruct (Ascii.eqb b c) eqn:Hb; [done|]. by intros [= <- _].
  + cbn [strip_last]. intros [= <- _]. by destruct (Ascii.eqb b c).
Qed.

Lemma no_double_strip_ends (s : string) :
  no_double c s = true → no_double c (strip_ends c s) = true.
Proof.
  destruct s as [|a s]; [done|]. unfold strip_ends. intros Hs.
  destruct (Ascii.eqb a c); apply no_double_strip_last; [|done].
  by eapply no_double_tail.
Qed.

Lemma no_double_take (n : nat) (s : string) :
  no_double c s = true → no_double c (take n s) = true.
Proof.
  revert s. induction n as [|n IH]; intros [|a s] Hs; try done.
  cbn [take]. pose proof (no_double_tail _ _ Hs) as Ht.
  apply no_double_cons; [auto|].
  destruct s as [|b s]; [right; by destruct n|].
  cbn [no_double] in Hs. apply andb_true_iff in Hs as [Hab _].
  destruct (Ascii.eqb a c); [right|by left].
  intros b' s'. destruct n; [done|]. cbn. intros [= <- _].
  by destruct (Ascii.eqb b c).
Qed.

End JsStringFacts.

(** ** The ends of a stripped string *)

Section Ends.
Import JsString.
Variable c : ascii.

Lemma first_char_strip_last (s : string) :
  no_double c s = true → first_char s ≠ Some c →
  first_char (strip_last c s) ≠ Some c.
Proof.
  destruct s as [|a [|b s]]; cbn; [done| |done].
  by destruct (Ascii.eqb a c).
Qed.

Lemma first_char_strip_ends (s : string) :
  no_double c s = true → first_char (strip_ends c s) ≠ Some c.
Proof.
  destruct s as [|a s]; [done|]. intros Hs. unfold strip_ends.
  destruct (Ascii.eqb a c) eqn:Ha.
  - apply first_char_strip_last; [by eapply no_double_tail|].
    destruct s as [|b s]; [done|]. cbn in *. rewrite Ha in Hs.
    destruct (Ascii.eqb b c) eqn:Hb; [done|]. intros [= ->].
    by rewrite Ascii.eqb_refl in Hb.
  - apply first_char_strip_last; [done|]. cbn. intros [= ->].
    by rewrite Ascii.eqb_refl in Ha.
Qed.

Lemma first_char_take (n : nat) (s : string) :
  first_char s ≠ Some c → first_char (take n s) ≠ Some c.
Proof. by destruct n, s. Qed.

Lemma last_char_strip_last (s : string) :
  no_double c s = true → last_char (strip_last c s) ≠ Some c.
Proof.
  induction s as [|a s IH]; [done|]. intros Hs.
  pose proof (no_double_tail _ _ _ Hs) as Ht. specialize (IH Ht).
  destruct s as [|b s].
  - cbn. destruct (Ascii.eqb a c) eqn:Ha; [done|]. cbn. intros [= ->].
    by rewrite Ascii.eqb_refl in Ha.
  - cbn [strip_last]. cbn [strip_last] in IH.
    destruct s as [|b' s].
    + cbn in *. destruct (Ascii.eqb b c) eqn:Hb; [|done]. cbn.
      rewrite andb_true_r in Hs. apply negb_true_iff, andb_false_iff in Hs.
      destruct Hs as [Ha|?]; [|done]. intros [= ->]. by rewrite Ascii.eqb_refl in Ha.
    + done.
Qed.

Lemma last_char_strip_ends (s : string) :
  no_double c s = true → last_char (strip_ends c s) ≠ Some c.
Proof.
  destruct s as [|a s]; [done|]. intros Hs. unfold strip_ends.
  destruct (Ascii.eqb a c); apply last_char_strip_last; [|done].
  by eapply no_double_tail.
Qed.

Lemma take_all (n : nat) (s : string) :
  (String.length (take n s) < n)%nat → take n s = s.
Proof.
  revert s. induction n as [|n IH]; intros [|a s]; cbn; try done; try lia.
  intros Hn. f_equal. apply IH. lia.
Qed.

End Ends.

Lemma replace_first_prefix (pat rep s : string) :
  JsString.replace_first pat rep (pat +:+ s) = rep +:+ s.
Proof.
  assert (Hp : ∀ t, String.prefix pat (pat +:+ t) = true).
  { intros t. induction pat as [|a pat' IH]; [by destruct t|].
    rewrite append_cons. cbn. by destruct (ascii_dec a a). }
  assert (Hd : ∀ t, JsString.drop (String.length pat) (pat +:+ t) = t).
  { intros t. induction pat as [|a pat' IH]; [done|].
    rewrite append_cons. cbn. apply IH. intros u. specialize (Hp u).
    rewrite append_cons in Hp. cbn in Hp. by destruct (ascii_dec a a). }
  destruct (pat +:+ s) eqn:Hs; cbn [JsString.replace_first];
    rewrite <- Hs, Hp, Hd; done.
Qed.

Lemma replace_first_absent (pat rep s : string) :
  JsString.includes pat s = false → JsString.replace_first pat rep s = s.
Proof.
  induction s as [|a s IH]; cbn [JsString.includes JsString.replace_first];
    intros [Hp Hs]%orb_false_iff; rewrite Hp; [done|]. by rewrite IH.
Qed.

(** ** The derived name as runs of letters and digits *)

Lemma append_nil_r (s : string) : s +:+ "" = s.
Proof. induction s as [|c s IH]; [done|]. by rewrite append_cons, IH. Qed.

Lemma is_alnum_hyphen_alnum (c : ascii) :
  JsString.is_alnum_hyphen c = is_alnum c || Ascii.eqb c "-".
Proof. by destruct c as [[] [] [] [] [] [] [] []]. Qed.

Lemma alnum_words_sep (c : ascii) (s : string) :
  is_alnum c = false → alnum_words (String c s) = alnum_words s.
Proof. intros Hc. cbn. by rewrite Hc. Qed.

Lemma alnum_words_nonempty (s : string) :
  starts_alnum s = true → alnum_words s ≠ [].
Proof.
  destruct s as [|c s]; [done|]. cbn. intros ->.
  destruct (alnum_words s); [done|]. by destruct (starts_alnum s).
Qed.

Lemma alnum_words_not_started (s : string) :
  s ≠ "" → starts_alnum s = false → ∃ c s', s = String c s' ∧ is_alnum c = false.
Proof. destruct s as [|c s]; [done|]. intros _ Hc. by exists c, s. Qed.

(** Across a character outside the class, the runs of the two sides are
    listed one after the other. *)
Lemma alnum_words_app_sep (c : ascii) (a b : string) :
  is_alnum c = false →
  alnum_words (a +:+ String c b) = alnum_words a ++ alnum_words b.
Proof.
  intros Hc. induction a as [|x a IH].
  - rewrite append_nil_l. by apply alnum_words_sep.
  - rewrite append_cons. cbn [alnum_words]. rewrite IH.
    destruct (is_alnum x); [|done].
    destruct a as [|d a].
    + rewrite append_nil_l. cbn [alnum_words app starts_alnum]. rewrite Hc.
      by destruct (alnum_words b).
    + rewrite append_cons. cbn [starts_alnum].
      destruct (is_alnum d) eqn:Hd.
      * pose proof (alnum_words_nonempty (String d a)) as Hne. cbn [starts_alnum] in Hne.
        destruct (alnum_words (String d a)) as [|w ws]; [by destruct Hne|]. done.
      * rewrite (alnum_words_sep d) by done.
        rewrite (alnum_words_sep d) in IH by done.
        destruct (alnum_words a) as [|w ws]; [|done].
        cbn [app]. by destruct (alnum_words b).
Qed.

Lemma starts_alnum_replace_chars (q : ascii → bool) (rep : ascii) (s : string) :
  (∀ c, q c = true → is_alnum c = false) → is_alnum rep = false →
  starts_alnum (JsString.replace_chars q rep s) = starts_alnum s.
Proof.
  intros Hq Hrep. destruct s as [|c s]; [done|]. cbn.
  destruct (q c) eqn:Hc; [|done]. by rewrite Hrep, (Hq _ Hc).
Qed.

(** Replacing characters outside the class by one outside the class keeps
    the runs. *)
Lemma alnum_words_replace_chars (q : ascii → bool) (rep : ascii) (s : string) :
  (∀ c, q c = true → is_alnum c = false) → is_alnum rep = false →
  alnum_words (JsString.replace_chars q rep s) = alnum_words s.
Proof.
  intros Hq Hrep. induction s as [|c s IH]; [done|].
  cbn [JsString.replace_chars alnum_words].
  rewrite IH, starts_alnum_replace_chars by done.
  destruct (q c) eqn:Hc; [|done]. by rewrite Hrep, (Hq _ Hc).
Qed.

Lemma starts_alnum_collapse_runs (c : ascii) (s : string) :
  is_alnum c = false →
  starts_alnum (JsString.collapse_runs c s) = starts_alnum s.
Proof.
  intros Hc. induction s as [|a s IH]; [done|]. cbn [JsString.collapse_runs].
  destruct (Ascii.eqb a c) eqn:Ha; [|done]. apply Ascii.eqb_eq in Ha as ->.
  destruct s as [|b s]; [done|].
  destruct (Ascii.eqb b c) eqn:Hb; [|done]. apply Ascii.eqb_eq in Hb as ->.
  rewrite IH. cbn. done.
Qed.

Lemma alnum_words_collapse_runs (c : ascii) (s : string) :
  is_alnum c = false →
  alnum_words (JsString.collapse_runs c s) = alnum_words s.
Proof.
  intros Hc. induction s as [|a s IH]; [done|]. cbn [JsString.collapse_runs].
  destruct (Ascii.eqb a c) eqn:Ha.
  - apply Ascii.eqb_eq in Ha as ->. rewrite (alnum_words_sep c s) by done.
    destruct s as [|b s]; [by rewrite alnum_words_sep|].
    destruct (Ascii.eqb b c); [done|]. by rewrite alnum_words_sep.
  - cbn [alnum_words]. by rewrite IH, starts_alnum_collapse_runs.
Qed.

Lemma alnum_words_strip_last (c : ascii) (s : string) :
  is_alnum c = false →
  alnum_words (JsString.strip_last c s) = alnum_words s
  ∧ (starts_alnum (JsString.strip_last c s) = starts_alnum s).
Proof.
  intros Hc. induction s as [|a s [IH1 IH2]]; [done|]. cbn [JsString.strip_last].
  destruct s as [|b s].
  - destruct (Ascii.eqb a c) eqn:Ha; [|done]. apply Ascii.eqb_eq in Ha as ->.
    cbn. by rewrite Hc.
  - change (JsString.strip_last c (String a (String b s)))
      with (String a (JsString.strip_last c (String b s))).
    split; [|done]. cbn [alnum_words]. by rewrite IH1, IH2.
Qed.

Lemma alnum_words_strip_ends (c : ascii) (s : string) :
  is_alnum c = false →
  alnum_words (JsString.strip_ends c s) = alnum_words s.
Proof.
  intros Hc. destruct s as [|a s]; [done|]. unfold JsString.strip_ends.
  destruct (Ascii.eqb a c) eqn:Ha.
  - apply Ascii.eqb_eq in Ha as ->. rewrite alnum_words_sep by done.
    by apply alnum_words_strip_last.
  - by apply alnum_words_strip_last.
Qed.

Lemma concat_cons_head (sep : string) (c : ascii) (w : string) (ws : list string) :
  String.concat sep (String c w :: ws) = String c (String.concat sep (w :: ws)).
Proof. by destruct ws. Qed.

Lemma alnum_not_hyphen (c : ascii) : is_alnum c = true → Ascii.eqb c "-" = false.
Proof. by destruct c as [[] [] [] [] [] [] [] []]. Qed.

(** A string of letters, digits and single hyphens that does not end with a
    hyphen is its runs joined by hyphens, after a hyphen at its start. *)
Lemma concat_alnum_words (s : string) :
  JsString.all JsString.is_alnum_hyphen s = true →
  JsString.no_double "-" s = true →
  last_char s ≠ Some "-"%char →
  String.concat "-" (alnum_words s) = drop_first "-" s.
Proof.
  induction s as [|c s IH]; [done|].
  cbn [JsString.all]. intros [Hc Hs]%andb_true_iff Hd Hl.
  pose proof (no_double_tail _ _ _ Hd) as Hd'.
  rewrite is_alnum_hyphen_alnum in Hc.
  destruct s as [|d s].
  { destruct (is_alnum c) eqn:Ha.
    - cbn. by rewrite Ha, (alnum_not_hyphen c Ha).
    - cbn in Hc. apply Ascii.eqb_eq in Hc as ->. by destruct Hl. }
  assert (Hl' : last_char (String d s) ≠ Some "-"%char) by done.
  specialize (IH Hs Hd' Hl').
  cbn [JsString.all] in Hs. apply andb_true_iff in Hs as [Hdc _].
  rewrite is_alnum_hyphen_alnum in Hdc.
  destruct (is_alnum c) eqn:Ha.
  - cbn [alnum_words] in *. cbn [drop_first] in *.
    rewrite Ha, (alnum_not_hyphen c Ha). cbn [starts_alnum].
    destruct (is_alnum d) eqn:Hda.
    + rewrite (alnum_not_hyphen d Hda) in IH.
      destruct (alnum_words s) as [|w ws].
      * rewrite concat_cons_head. by rewrite IH.
      * destruct (starts_alnum s); rewrite concat_cons_head; by rewrite IH.
    + cbn in Hdc. rewrite Hdc in IH. apply Ascii.eqb_eq in Hdc as ->.
      destruct (alnum_words s) as [|w ws].
      * cbn in IH. subst s. by destruct Hl.
      * change (String.concat "-" (String c "" :: w :: ws))
          with (String c (String "-" (String.concat "-" (w :: ws)))).
        by rewrite IH.
  - cbn in Hc. apply Ascii.eqb_eq in Hc as ->.
    cbn [JsString.no_double] in Hd. rewrite Ascii.eqb_refl in Hd. cbn in Hd.
    apply andb_true_iff in Hd as [Hdh _]. apply negb_true_iff in Hdh.
    cbn [drop_first] in *. rewrite Hdh in IH. rewrite Ascii.eqb_refl.
    by rewrite alnum_words_sep.
Qed.

(** The three replacements of the source, on any string. *)
Lemma sanitized_is_joined_words (s : string) :
  JsString.strip_ends "-"
    (JsString.collapse_runs "-"
       (JsString.replace_chars (λ c, negb (JsString.is_alnum_hyphen c)) "-" s))
  = String.concat "-" (alnum_words s).
Proof.
  set (t := JsString.replace_chars _ _ s).
  set (u := JsString.collapse_runs "-" t).
  set (v := JsString.strip_ends "-" u).
  assert (Hwords : alnum_words v = alnum_words s).
  { unfold v, u, t.
    rewrite alnum_words_strip_ends, alnum_words_collapse_runs by done.
    apply alnum_words_replace_chars; [|done].
    intros c Hc%negb_true_iff. rewrite is_alnum_hyphen_alnum in Hc.
    by apply orb_false_iff in Hc as [? _]. }
  assert (Hall : JsString.all JsString.is_alnum_hyphen v = true).
  { apply all_strip_ends, all_collapse_runs, all_replace_chars; [done|].
    intros a Ha. by apply negb_false_iff in Ha. }
  assert (Hdouble : JsString.no_double "-" u = true)
    by apply no_double_collapse_runs.
  rewrite <- Hwords, concat_alnum_words;
    [|done|by apply no_double_strip_ends|by apply last_char_strip_ends].
  pose proof (first_char_strip_ends "-" u Hdouble) as Hfirst. fold v in Hfirst.
  destruct v as [|a v']; [done|]. cbn in *.
  destruct (Ascii.eqb_spec a "-"); [by subst|done].
Qed.

(** ** Filename derivation (C8) *)

Section FilenameFacts.
Context `{Platform}.

Lemma filenameOfURL_shape (u : URL) :
  JsString.all JsString.is_alnum_hyphen (filenameOfURL u) = true
  ∧ JsString.no_double "-" (filenameOfURL u) = true
  ∧ (String.length (filenameOfURL u) ≤ 100)%nat
  ∧ filenameOfURL u ≠ "".
Proof.
  unfold filenameOfURL.
  set (raw := if negb (pathname u =? "") && negb (pathname u =? "/") then _ else _).
  set (name := JsString.take 100 _).
  destruct (name =? "") eqn:Hname; [split_and!; [done|done|cbn; lia|done]|].
  apply String.eqb_neq in Hname. split_and!; [| | |done].
  - apply all_take, all_strip_ends, all_collapse_runs, all_replace_chars; [done|].
    intros a Ha. by apply negb_false_iff in Ha.
  - apply no_double_take, no_double_strip_ends, no_double_collapse_runs.
  - apply length_take.
Qed.

Lemma filenameOfURL_www (host path : string) :
  JsString.includes "www." host = false →
  filenameOfURL {| hostname := "www." +:+ host; pathname := path |}
  = filenameOfURL {| hostname := host; pathname := path |}.
Proof.
  intros Hhost. unfold filenameOfURL. cbn [hostname pathname].
  by rewrite replace_first_prefix, append_nil_l, (replace_first_absent _ _ host).
Qed.

(** The name of a parsed URL is built from the runs of letters and digits
    of its host name, after the source's replacement of ["www."], and of
    its path. *)
Lemma filenameOfURL_derived (u : URL) :
  filenameOfURL u
  = derivedName (JsString.replace_first "www." "" (hostname u)) (pathname u).
Proof.
  unfold filenameOfURL, derivedName.
  set (host := JsString.replace_first "www." "" (hostname u)).
  set (raw := if negb (pathname u =? "") && negb (pathname u =? "/") then _ else _).
  rewrite sanitized_is_joined_words.
  assert (Hraw : alnum_words raw = alnum_words host ++ alnum_words (pathname u)).
  { unfold raw. destruct (pathname u =? "") eqn:Hempty.
    { apply String.eqb_eq in Hempty as ->. cbn. by rewrite app_nil_r. }
    destruct (pathname u =? "/") eqn:Hroot.
    { apply String.eqb_eq in Hroot as ->. cbn. by rewrite app_nil_r. }
    cbn [negb andb]. rewrite append_cons, append_nil_l.
    rewrite alnum_words_app_sep by done. f_equal.
    rewrite alnum_words_replace_chars; [by apply alnum_words_strip_ends| |done].
    by intros c <-%Ascii.eqb_eq. }
  by rewrite Hraw.
Qed.

(** C8, as amended.  Whatever the platform's URL parser does, the derived
    name consists of ASCII letters, digits and hyphens only, has no two
    adjacent hyphens, is at most 100 characters long and is not empty.
    For a URL whose host name starts with ["www."], and for one whose host
    name does not contain ["www."], the name is determined by the host name
    without that prefix and the path: it is their maximal runs of ASCII
    letters and digits, in order, joined by single hyphens and cut to the
    first 100 characters, or ["page"] when that is empty.  So dots are
    replaced by hyphens like every other character outside the class: the
    sample URL, parsed as the URL standard prescribes, yields
    ["example-com-foo-bar"].  Every input the parser refuses, ["not a url"]
    among them, yields ["page"]. *)
Theorem generateFilenameFromUrl_derivation :
  (∀ url,
     JsString.all JsString.is_alnum_hyphen (generateFilenameFromUrl url) = true
     ∧ JsString.no_double "-" (generateFilenameFromUrl url) = true
     ∧ (String.length (generateFilenameFromUrl url) ≤ 100)%nat
     ∧ generateFilenameFromUrl url ≠ "")
  ∧ (∀ url host path,
       URL_new url = Some {| hostname := "www." +:+ host; pathname := path |} →
       generateFilenameFromUrl url = derivedName host path)
  ∧ (∀ url host path,
       URL_new url = Some {| hostname := host; pathname := path |} →
       JsString.includes "www." host = false →
       generateFilenameFromUrl url = derivedName host path)
  ∧ (∀ host path, JsString.includes "www." host = false →
       filenameOfURL {| hostname := "www." +:+ host; pathname := path |}
       = filenameOfURL {| hostname := host; pathname := path |})
  ∧ (URL_new "https://www.Example.com/foo/bar/"
       = Some {| hostname := "www.example.com"; pathname := "/foo/bar/" |} →
     generateFilenameFromUrl "https://www.Example.com/foo/bar/"
     = "example-com-foo-bar")
  ∧ (∀ url, URL_new url = None → generateFilenameFromUrl url = "page")
  ∧ (URL_new "not a url" = None → generateFilenameFromUrl "not a url" = "page").
Proof.
  split_and!.
  - intros url. unfold generateFilenameFromUrl.
    destruct (URL_new url); [apply filenameOfURL_shape|].
    split_and!; [done|done|cbn; lia|done].
  - intros url host path Hurl. unfold generateFilenameFromUrl. rewrite Hurl.
    rewrite filenameOfURL_derived. cbn [hostname pathname].
    by rewrite replace_first_prefix, append_nil_l.
  - intros url host path Hurl Hhost. unfold generateFilenameFromUrl. rewrite Hurl.
    rewrite filenameOfURL_derived. cbn [hostname pathname].
    by rewrite replace_first_absent.
  - apply filenameOfURL_www.
  - unfold generateFilenameFromUrl. by intros ->.
  - unfold generateFilenameFromUrl. by intros url ->.
  - unfold generateFilenameFromUrl. by intros ->.
Qed.

End FilenameFacts.

Lemma generateFilenameFromUrl_derivation_witness :
  @generateFilenameFromUrl Std.platform "https://www.Example.com/foo/bar/"
  = "example-com-foo-bar"
  ∧ @generateFilenameFromUrl Std.platform "not a url" = "page"
  ∧ @filenameOfURL {| hostname := "www.example.com"; pathname := "/foo/bar/" |}
    = @filenameOfURL {| hostname := "example.com"; pathname := "/foo/bar/" |}
  ∧ @generateFilenameFromUrl Std.platform "https://www.www.example.com/a.b//c?d=1"
    = derivedName "www.example.com" "/a.b//c"
  ∧ @generateFilenameFromUrl Std.platform "http://docs.example.org/"
    = derivedName "docs.example.org" "/".
Proof.
  destruct (@generateFilenameFromUrl_derivation Std.platform)
    as (_ & Hprefix & Hplain & Hwww & Hsample & _ & Hfail).
  split_and!.
  - apply Hsample. reflexivity.
  - apply Hfail. reflexivity.
  - apply (Hwww "example.com" "/foo/bar/"). reflexivity.
  - apply Hprefix. reflexivity.
  - apply Hplain; reflexivity.
Defined.

Example derivedName_samples :
  derivedName "www.example.com" "/a.b//c" = "www-example-com-a-b-c"
  ∧ derivedName "docs.example.org" "/" = "docs-example-org"
  ∧ derivedName "" "/" = "page"
  ∧ alnum_words "/foo//bar-1/" = ["foo"; "bar"; "1"].
Proof. by vm_compute. Qed.

(** C8 as stated fails on its own example: the derived name of the sample
    URL is ["example-com-foo-bar"], not ["example.com-foo-bar"]. *)
Lemma generateFilenameFromUrl_sample_counterexample :
  @generateFilenameFromUrl Std.platform "https://www.Example.com/foo/bar/"
  = "example-com-foo-bar"
  ∧ (@generateFilenameFromUrl Std.platform "https://www.Example.com/foo/bar/"
     =? "example.com-foo-bar") = false.
Proof. split; reflexivity. Qed.

(** ** Runs of the cache functions *)

#[local] Arguments getPdfFromCache : simpl never.
#[local] Arguments savePdfToCache : simpl never.
#[local] Arguments handleDownload : simpl never.
#[local] Arguments updateConversionCount : simpl never.

Ltac js_unfold :=
  unfold fetch, await, console_error, setIsLoading, setError, setCacheStatus,
    setConversionCount, try_catch, try_finally, emit, update, read, throw,
    mbind, mret, Js_bind, Js_ret.

(** The records of the store across the updates of a run. *)
Lemma records_with_state (f : State → State) (b : Browser) :
  records (with_state f b) = records b.
Proof. done. Qed.

Lemma records_with_localStorage (f : gmap string string → gmap string string) (b : Browser) :
  records (with_localStorage f b) = records b.
Proof. done. Qed.

Lemma records_onupgradeneeded (b : Browser) :
  records (with_pdfs onupgradeneeded b) = records b.
Proof. by destruct b as [[?|] ? ?]. Qed.

Lemma records_put (k : string) (e : CacheEntry) (b : Browser) :
  records (with_pdfs (fmap (insert k e)) (with_pdfs onupgradeneeded b))
  = <[k:=e]> (records b).
Proof. by destruct b as [[?|] ? ?]. Qed.

Lemma getPdfFromCache_run (io : StoreIO) (url : string) (ps : PageSize) (b : Browser) :
  getPdfFromCache io url ps b =
  if opens io then
    if completes io then
      (Normal (blob <$> records b !! generateCacheKey url ps),
       with_pdfs onupgradeneeded b,
       [IDBOpen; StoreGet (generateCacheKey url ps)])
    else
      (Normal None, with_pdfs onupgradeneeded b,
       [IDBOpen; StoreGet (generateCacheKey url ps);
        ConsoleError "Error retrieving from cache:"
          (JsError "Failed to get PDF from cache")])
  else
    (Normal None, b,
     [IDBOpen;
      ConsoleError "Error retrieving from cache:" (JsError "Failed to open database")]).
Proof.
  unfold getPdfFromCache, initializeDB. js_unfold.
  by destruct b as [[?|] ? ?], (opens io), (completes io).
Qed.

Lemma savePdfToCache_run (io : StoreIO) (now : Z) (url : string) (ps : PageSize)
    (c : Blob) (b : Browser) :
  savePdfToCache io now url ps c b =
  let entry := {| cacheKey := generateCacheKey url ps; url := url; pageSize := ps;
                  blob := c; timestamp := now |} in
  if opens io then
    if completes io then
      (Normal tt,
       with_pdfs (fmap (insert (generateCacheKey url ps) entry))
         (with_pdfs onupgradeneeded b),
       [IDBOpen; StorePut entry])
    else
      (Normal tt, with_pdfs onupgradeneeded b,
       [IDBOpen; StorePut entry;
        ConsoleError "Error saving to cache:" (JsError "Failed to save PDF to cache")])
  else
    (Normal tt, b,
     [IDBOpen; ConsoleError "Error saving to cache:" (JsError "Failed to open database")]).
Proof.
  unfold savePdfToCache, initializeDB. js_unfold.
  by destruct (opens io), (completes io).
Qed.

Section Runs.
Context `{Platform}.

Lemma handleDownload_run (c : Blob) (url : string) (b : Browser) :
  handleDownload c url b =
  (Normal tt, b,
   (if URL_new url is None
    then [ConsoleError "Error generating filename:" (JsError URL_error)]
    else [])
   ++ [Download (generateFilenameFromUrl url +:+ ".pdf") c]).
Proof. unfold handleDownload. js_unfold. by destruct (URL_new url). Qed.

Lemma updateConversionCount_run (b : Browser) :
  updateConversionCount b =
  let newCount := conversionCount (state b) + 1 in
  (Normal tt,
   with_localStorage (insert "conversionCount" (pretty newCount))
     (with_state (set_conversionCount newCount) b),
   [LocalStorageSet "conversionCount" (pretty newCount)]).
Proof. done. Qed.

Lemma handleSubmit_empty (env : Env) (ps : PageSize) (b : Browser) :
  handleSubmit env "" ps b = (Normal tt, b, []).
Proof. done. Qed.

End Runs.

(** One step of a run: the next call is replaced by its result, and the
    result is simplified. *)
Ltac js_run :=
  repeat first
    [ rewrite getPdfFromCache_run
    | rewrite savePdfToCache_run
    | rewrite handleDownload_run
    | rewrite updateConversionCount_run
    | rewrite records_put
    | rewrite records_onupgradeneeded
    | rewrite records_with_state
    | rewrite records_with_localStorage
    | progress cbn -[records with_pdfs with_state with_localStorage onupgradeneeded
                     generateFilenameFromUrl generateCacheKey pretty String.append] ].

(** The next thing the run depends on, in the order the flow consults them. *)
Ltac js_case :=
  first
    [ match goal with |- context [opens (read_io ?env)] =>
        destruct (opens (read_io env)) eqn:? end
    | match goal with |- context [completes (read_io ?env)] =>
        destruct (completes (read_io env)) eqn:? end
    | match goal with |- context [records ?b !! ?k] =>
        is_var b; destruct (records b !! k) eqn:? end
    | match goal with |- context [network ?env] =>
        destruct (network env) as [[?|]|?] eqn:? end
    | match goal with |- context [ok ?r] => destruct (ok r) eqn:? end
    | match goal with |- context [errorData ?r] =>
        destruct (errorData r) as [[?|]|[?|]] eqn:? end
    | match goal with |- context [content ?r] =>
        destruct (content r) as [[?|]|?] eqn:? end
    | match goal with |- context [opens (write_io ?env)] =>
        destruct (opens (write_io env)) eqn:? end
    | match goal with |- context [completes (write_io ?env)] =>
        destruct (completes (write_io env)) eqn:? end
    | match goal with |- context [URL_new ?u] => destruct (URL_new u) eqn:? end ].

Ltac js_start :=
  unfold handleSubmit; js_unfold; unfold after, events, outcome.

Section Store.
Context `{Platform}.

(** A run leaves the store as it was, or with the one record of this run
    written under the key of its [url] and [pageSize]. *)
Lemma handleSubmit_records (env : Env) (url : string) (ps : PageSize) (b : Browser) :
  records (after (handleSubmit env url ps b)) = records b
  ∨ url ≠ "" ∧ ∃ c,
      records (after (handleSubmit env url ps b))
      = <[generateCacheKey url ps :=
            {| cacheKey := generateCacheKey url ps; url := url; pageSize := ps;
               blob := c; timestamp := now env |}]> (records b).
Proof.
  destruct (url =? "") eqn:Hurl.
  { apply String.eqb_eq in Hurl as ->. by left. }
  js_start. rewrite Hurl. apply String.eqb_neq in Hurl.
  repeat (js_run; try js_case); first [by left | right; eauto].
Qed.

End Store.

(** ** The store invariant *)

Section Invariant.
Context `{Platform}.

Lemma keyed_empty (b : Browser) : records b = ∅ → keyed b.
Proof. intros Hb k e. by rewrite Hb, lookup_empty. Qed.

Lemma keyed_put (b b' : Browser) (url : string) (ps : PageSize) (c : Blob) (t : Z) :
  keyed b → url ≠ "" →
  records b'
  = <[generateCacheKey url ps :=
        {| cacheKey := generateCacheKey url ps; url := url; pageSize := ps;
           blob := c; timestamp := t |}]> (records b) →
  keyed b'.
Proof.
  intros Hb Hurl Hb' k e. rewrite Hb', lookup_insert.
  case_decide as Hk; [|by apply Hb]. by intros [= <-].
Qed.

Lemma reachable_keyed (b : Browser) : reachable b → keyed b.
Proof.
  induction 1 as [ls st|env url ps b _ IH|b _ IH].
  - by apply keyed_empty.
  - destruct (handleSubmit_records env url ps b) as [Hsame|[Hurl [c Hput]]].
    + intros k e. rewrite Hsame. apply IH.
    + by eapply keyed_put.
  - by apply keyed_empty.
Qed.


End Invariant.

(** ** The hit path (C1) *)

Section Hit.
Context `{Platform}.


End Hit.


(** ** Round trip through the store (C5) *)

Section RoundTrip.
Context `{Platform}.

(** C5. When the write and the following read both complete, the record
    [savePdfToCache] puts is the one found under its key, with the payload
    and the page size that were stored, and [getPdfFromCache] returns that
    payload.  The put is an upsert: the record replaces whatever was under
    its key (the store does not grow when the key was taken) and no other
    key changes.  In every state the application can reach, two records
    with the same [cacheKey] are the same record under the same key. *)
Theorem cache_round_trip :
  (∀ (wio rio : StoreIO) (now : Z) (url : string) (ps : PageSize) (c : Blob)
     (b : Browser),
     opens wio = true → completes wio = true →
     opens rio = true → completes rio = true →
     (∃ e, records (after (savePdfToCache wio now url ps c b))
             !! generateCacheKey url ps = Some e
           ∧ cacheKey e = generateCacheKey url ps
           ∧ blob e = c ∧ pageSize e = ps)
     ∧ outcome (getPdfFromCache rio url ps
                  (after (savePdfToCache wio now url ps c b)))
       = Normal (Some c)
     ∧ (∀ k, k ≠ generateCacheKey url ps →
          records (after (savePdfToCache wio now url ps c b)) !! k
          = records b !! k)
     ∧ (is_Some (records b !! generateCacheKey url ps) →
        size (records (after (savePdfToCache wio now url ps c b)))
        = size (records b)))
  ∧ (∀ (b : Browser) (k1 k2 : string) (e1 e2 : CacheEntry),
       reachable b →
       records b !! k1 = Some e1 → records b !! k2 = Some e2 →
       cacheKey e1 = cacheKey e2 → k1 = k2 ∧ e1 = e2).
Proof.
  split.
  - intros wio rio now url ps c b Hwo Hwc Hro Hrc.
    rewrite savePdfToCache_run, Hwo, Hwc. unfold after, outcome. cbn [fst snd].
    rewrite getPdfFromCache_run, Hro, Hrc. cbn [fst snd].
    rewrite records_put. split_and!.
    + eexists. by rewrite lookup_insert_eq.
    + by rewrite lookup_insert_eq.
    + intros k Hk. by rewrite lookup_insert_ne.
    + intros [e He]. rewrite <- (insert_delete_id _ _ _ He) at 2.
      rewrite <- (insert_delete_eq (records b)).
      rewrite !map_size_insert_None by apply lookup_delete_eq. done.
  - intros b k1 k2 e1 e2 Hb%reachable_keyed H1 H2 Hk.
    destruct (Hb _ _ H1) as [<- _]. destruct (Hb _ _ H2) as [<- _].
    split; [done|]. rewrite Hk in H1. congruence.
Qed.

End RoundTrip.

Lemma cache_round_trip_witness :
  outcome (getPdfFromCache Sample.working "https://example.com/" letter
             (after (savePdfToCache Sample.working 7 "https://example.com/" letter
                       Sample.document Sample.fresh)))
  = Normal (Some Sample.document)
  ∧ ∀ k1 k2 e1 e2,
      records Sample.cached !! k1 = Some e1 → records Sample.cached !! k2 = Some e2 →
      cacheKey e1 = cacheKey e2 → k1 = k2 ∧ e1 = e2.
Proof.
  destruct (@cache_round_trip Std.platform) as [Hput Hone]. split.
  - apply (Hput Sample.working Sample.working 7%Z "https://example.com/" letter
             Sample.document Sample.fresh); reflexivity.
  - intros k1 k2 e1 e2. apply Hone. apply reachable_submit, reachable_fresh.
Defined.

(** ** The miss path populates the store (C4) *)

Section Miss.
Context `{Platform}.

(** C4, as amended.  Starting from an empty store, a conversion that hands
    a file to the user and whose cache write succeeds leaves, under the key
    of [(url, pageSize)], a record carrying exactly the bytes handed over,
    and that record is written before the file is handed over.  In every
    run, whatever the store and the network do, no write to the store
    follows the hand-over. *)
Theorem miss_populates_cache
    (env : Env) (url : string) (ps : PageSize) (b : Browser) :
  (records b = ∅ →
   opens (write_io env) = true → completes (write_io env) = true →
   downloads (events (handleSubmit env url ps b)) ≠ [] →
   ∃ e, records (after (handleSubmit env url ps b)) !! generateCacheKey url ps
        = Some e
        ∧ downloads (events (handleSubmit env url ps b)) = [blob e]
        ∧ pageSize e = ps
        ∧ ∃ t1 t2 t3 name,
            events (handleSubmit env url ps b)
            = t1 ++ StorePut e :: t2 ++ Download name (blob e) :: t3)
  ∧ no_put_after_download (events (handleSubmit env url ps b)) = true.
Proof.
  split.
  - intros Hb Hwo Hwc. js_start. destruct (url =? "") eqn:Hurl.
    { intros Hd. by destruct Hd. }
    repeat (js_run; rewrite ?Hb, ?Hwo, ?Hwc, ?lookup_empty; try js_case);
      try (intros Hd; by destruct Hd);
      intros _; eexists; (split_and!; [apply lookup_insert_eq|done|done|]);
      first [ by eexists [_; _; _; _], [], [_], _
            | by eexists [_; _; _; _], [_], [_], _
            | by eexists [_; _; _; _; _], [], [_], _
            | by eexists [_; _; _; _; _], [_], [_], _ ].
  - js_start. destruct (url =? "") eqn:Hurl; [done|].
    repeat (js_run; try js_case); done.
Qed.

End Miss.

Lemma miss_populates_cache_witness :
  ∃ e, records (after (@handleSubmit Std.platform Sample.online
                         "https://example.com/" a4 Sample.fresh))
         !! generateCacheKey "https://example.com/" a4 = Some e
       ∧ blob e = Sample.document.
Proof.
  destruct (@miss_populates_cache Std.platform Sample.online
              "https://example.com/" a4 Sample.fresh) as [Hmiss _].
  destruct Hmiss as (e & He & Hd & _).
  - reflexivity.
  - reflexivity.
  - reflexivity.
  - vm_compute. discriminate.
  - exists e. split; [exact He|].
    exact (eq_sym (f_equal (λ l, default [] (head l)) Hd)).
Defined.

(** C4 as stated fails when the store cannot be written: the conversion
    starts from an empty store and hands the document to the user, without
    an error, yet the store has no record under the key afterwards. *)
Lemma miss_populates_cache_counterexample :
  records Sample.fresh = ∅
  ∧ downloads (events (@handleSubmit Std.platform Sample.read_only
                         "https://example.com/" a4 Sample.fresh))
    = [Sample.document]
  ∧ error (state (after (@handleSubmit Std.platform Sample.read_only
                           "https://example.com/" a4 Sample.fresh))) = None
  ∧ records (after (@handleSubmit Std.platform Sample.read_only
                      "https://example.com/" a4 Sample.fresh))
      !! generateCacheKey "https://example.com/" a4 = None.
Proof. split_and!; reflexivity. Qed.

(** ** Store failures (C6, C7) *)

Lemma records_without (k : string) (b : Browser) : records (without k b) !! k = None.
Proof. destruct b as [[?|] ? ?]; cbn; [apply lookup_delete_eq|done]. Qed.

Lemma records_without_absent (k : string) (b : Browser) :
  records b !! k = None → records (without k b) = records b.
Proof. destruct b as [[?|] ? ?]; cbn; [apply delete_id|done]. Qed.

Section StoreFailures.
Context `{Platform}.


(** C7. A run in which the store read fails (the database does not open,
    or the get request errors; the failure is logged) behaves as the plain
    miss does: it sends the one render request for [(url, pageSize)], and it
    completes with the same component state (the same error, if any), the
    same request, the same hand-over and the same cache write as the run in
    which the read completes and finds nothing, and with the same store when
    the store had no record under the key.  Every run for a non-empty url
    whose read fails is such a run. *)
Theorem store_read_failure_is_a_miss :
  (∀ (env : Env) (url : string) (ps : PageSize) (b : Browser) (err : Thrown),
     In (ConsoleError "Error retrieving from cache:" err)
        (events (handleSubmit env url ps b)) →
     fetches (events (handleSubmit env url ps b))
     = [{| req_url := url; req_pageSize := ps |}]
     ∧ outcome (handleSubmit env url ps b)
       = outcome (handleSubmit (readable env) url ps
                    (without (generateCacheKey url ps) b))
     ∧ state (after (handleSubmit env url ps b))
       = state (after (handleSubmit (readable env) url ps
                         (without (generateCacheKey url ps) b)))
     ∧ fetches (events (handleSubmit env url ps b))
       = fetches (events (handleSubmit (readable env) url ps
                            (without (generateCacheKey url ps) b)))
     ∧ downloads (events (handleSubmit env url ps b))
       = downloads (events (handleSubmit (readable env) url ps
                              (without (generateCacheKey url ps) b)))
     ∧ puts (events (handleSubmit env url ps b))
       = puts (events (handleSubmit (readable env) url ps
                         (without (generateCacheKey url ps) b)))
     ∧ (records b !! generateCacheKey url ps = None →
        records (after (handleSubmit env url ps b))
        = records (after (handleSubmit (readable env) url ps
                            (without (generateCacheKey url ps) b)))))
  ∧ (∀ (env : Env) (url : string) (ps : PageSize) (b : Browser),
       url ≠ "" →
       opens (read_io env) = false ∨ completes (read_io env) = false →
       ∃ err, In (ConsoleError "Error retrieving from cache:" err)
                 (events (handleSubmit env url ps b))).
Proof.
  split.
  - intros env url ps b err.
    pose proof (records_without_absent (generateCacheKey url ps) b) as Habsent.
    set (absent := records b !! generateCacheKey url ps = None) in *.
    js_start. destruct (url =? "") eqn:Hurl; [intros []|].
    repeat (js_run; rewrite ?records_without; try js_case);
      try (intros Hin; cbn in Hin; by intuition discriminate);
      intros _; (split_and!; [done..|]);
      intros Hnone; by rewrite (Habsent Hnone).
  - intros env url ps b Hurl%String.eqb_neq Hio. js_start. rewrite Hurl.
    destruct Hio as [Hio|Hio];
      repeat (js_run; rewrite ?Hio; try js_case); cbn; eauto.
Qed.

End StoreFailures.


Lemma store_read_failure_is_a_miss_witness :
  fetches (events (@handleSubmit Std.platform Sample.unreadable
                     "https://example.com/" a4 Sample.cached))
  = [{| req_url := "https://example.com/"; req_pageSize := a4 |}].
Proof.
  destruct (@store_read_failure_is_a_miss Std.platform) as [Hmiss Hlogged].
  destruct (Hlogged Sample.unreadable "https://example.com/" a4 Sample.cached)
    as [err Herr]; [done|by left|].
  destruct (Hmiss Sample.unreadable "https://example.com/" a4 Sample.cached err Herr)
    as [Hf _].
  exact Hf.
Defined.

(** ** The route handler *)

Lemma perform_calls (succeeds : ProviderCall → bool) (calls : list ProviderCall)
    (c : ProviderCall) :
  In (Call c) (perform succeeds calls).1 → In c calls.
Proof.
  induction calls as [|d calls IH]; [done|]. cbn [perform].
  destruct (succeeds d); [|cbn; by intuition congruence].
  destruct (perform succeeds calls) as [evs all]. cbn.
  intros [[= ->]|Hin]; auto.
Qed.

Section Handler.
Context `{Platform}.

(** The handler answers with the document, or with an error whose status
    is 400 or 500 and whose message is not empty. *)
Lemma POST_error (env : ServerEnv) (body : option json) (message : string) (code : Z) :
  (POST env body).1 = NextResponse_json message code →
  (code = 400 ∨ code = 500)%Z
  ∧ ok (observed (POST env body).1) = false
  ∧ errorData (observed (POST env body).1) = inr (Some message).
Proof.
  unfold POST. destruct body as [body|]; [|by intros [= <- <-]; auto].
  destruct (safeParse body) as [issue|data]; [by intros [= <- <-]; auto|].
  destruct (BROWSERLESS_TOKEN env) as [[|a token]|];
    [by intros [= <- <-]; auto| |by intros [= <- <-]; auto].
  destruct (perform _ _) as [evs []]; [done|by intros [= <- <-]; auto].
Qed.

(** What the handler answers to a body the schema refuses. *)
Lemma POST_refused (env : ServerEnv) (body : json) (issue : ZodIssue) :
  safeParse body = inl issue →
  POST env (Some body)
  = (NextResponse_json ("Invalid request: " +:+ zod_message issue) 400, []).
Proof. unfold POST. by intros ->. Qed.

(** The provider calls of a request are calls of [render_calls] for the
    validated [url] and [pageSize]. *)
Lemma POST_calls (env : ServerEnv) (body : json) (c : ProviderCall) :
  In (Call c) (POST env (Some body)).2 →
  ∃ token data, safeParse body = inr data
    ∧ In c (render_calls token (req_url data) (req_pageSize data)).
Proof.
  unfold POST. destruct (safeParse body) as [issue|data]; [done|].
  destruct (BROWSERLESS_TOKEN env) as [[|a token]|];
    [by cbn; intuition congruence| |by cbn; intuition congruence].
  pose proof (perform_calls (succeeds env)
                (render_calls (String a token) (req_url data) (req_pageSize data)) c)
    as Hcalls.
  destruct (perform _ _) as [evs []]; cbn [snd fst] in *;
    rewrite in_app_iff; (intros [Hin|Hin]; [eauto|by cbn in Hin; intuition congruence]).
Qed.

End Handler.

(** ** Render failures (C9) *)

Section RenderFailure.
Context `{Platform}.

(** The flow when the response to the render request is not a success. *)
Lemma handleSubmit_render_failure
    (env : Env) (url : string) (ps : PageSize) (b : Browser) (r : Response) :
  fetches (events (handleSubmit env url ps b)) ≠ [] →
  network env = inr r → ok r = false →
  error (state (after (handleSubmit env url ps b)))
  = Some match errorData r with
         | inr (Some message) => message
         | inr None => "Failed to generate PDF"
         | inl (JsError message) => message
         | inl JsOther => "An error occurred"
         end
  ∧ fetches (events (handleSubmit env url ps b))
    = [{| req_url := url; req_pageSize := ps |}]
  ∧ downloads (events (handleSubmit env url ps b)) = []
  ∧ puts (events (handleSubmit env url ps b)) = []
  ∧ records (after (handleSubmit env url ps b)) = records b
  ∧ isLoading (state (after (handleSubmit env url ps b))) = false
  ∧ conversionCount (state (after (handleSubmit env url ps b)))
    = conversionCount (state b).
Proof.
  intros Hf Hnet Hok. revert Hf. js_start.
  destruct (url =? "") eqn:Hurl; [intros Hf; by destruct Hf|].
  repeat (js_run; rewrite ?Hnet, ?Hok; try js_case);
    try (intros Hf; by destruct Hf); intros _; by split_and!.
Qed.

(** C9. In a run that sent the render request and got a response whose
    status is not a success, the flow ends with its error set: to the
    message of the error payload when it has one, to
    ["Failed to generate PDF"] when it has none, and to the message of the
    exception when the payload cannot be read.  The request was sent once
    only, nothing is handed to the user, nothing is written to the store,
    and the conversion count stays.  When the request reaches the route
    handler of this repository, every answer other than the document has
    such a status, and its message is the error the flow ends with. *)
Theorem render_failure_is_reported :
  (∀ (env : Env) (url : string) (ps : PageSize) (b : Browser) (r : Response),
     fetches (events (handleSubmit env url ps b)) ≠ [] →
     network env = inr r → ok r = false →
     error (state (after (handleSubmit env url ps b)))
     = Some match errorData r with
            | inr (Some message) => message
            | inr None => "Failed to generate PDF"
            | inl (JsError message) => message
            | inl JsOther => "An error occurred"
            end
     ∧ fetches (events (handleSubmit env url ps b))
       = [{| req_url := url; req_pageSize := ps |}]
     ∧ downloads (events (handleSubmit env url ps b)) = []
     ∧ puts (events (handleSubmit env url ps b)) = []
     ∧ records (after (handleSubmit env url ps b)) = records b
     ∧ isLoading (state (after (handleSubmit env url ps b))) = false
     ∧ conversionCount (state (after (handleSubmit env url ps b)))
       = conversionCount (state b))
  ∧ (∀ (env : Env) (server : ServerEnv) (url : string) (ps : PageSize)
       (b : Browser) (message : string) (code : Z),
       fetches (events (handleSubmit env url ps b)) ≠ [] →
       network env = served server {| req_url := url; req_pageSize := ps |} →
       (POST server (Some (request_body {| req_url := url; req_pageSize := ps |}))).1
       = NextResponse_json message code →
       (code = 400 ∨ code = 500)%Z
       ∧ error (state (after (handleSubmit env url ps b))) = Some message
       ∧ downloads (events (handleSubmit env url ps b)) = []).
Proof.
  split; [apply handleSubmit_render_failure|].
  intros env server url ps b message code Hf Hnet Hpost.
  destruct (POST_error _ _ _ _ Hpost) as (Hcode & Hok & Hdata).
  destruct (handleSubmit_render_failure env url ps b _ Hf Hnet Hok)
    as (Herr & _ & Hd & _).
  rewrite Hdata in Herr. done.
Qed.

End RenderFailure.

Lemma render_failure_is_reported_witness :
  error (state (after (@handleSubmit Std.platform Sample.render_fails
                         "https://example.com/" a4 Sample.fresh)))
  = Some "Failed to generate PDF"
  ∧ error (state (after (@handleSubmit Std.platform
                           (Sample.through Sample.server_down "https://example.com/" a4)
                           "https://example.com/" a4 Sample.fresh)))
    = Some "Failed to generate PDF".
Proof.
  destruct (@render_failure_is_reported Std.platform) as [Hclient Hserved].
  destruct (Hclient Sample.render_fails "https://example.com/" a4 Sample.fresh
              Sample.refused) as [Herr _].
  - vm_compute. discriminate.
  - reflexivity.
  - reflexivity.
  - split; [exact Herr|].
    destruct (Hserved (Sample.through Sample.server_down "https://example.com/" a4)
                Sample.server_down "https://example.com/" a4 Sample.fresh
                "Failed to generate PDF" 500%Z) as (_ & Herr' & _).
    + vm_compute. discriminate.
    + reflexivity.
    + reflexivity.
    + exact Herr'.
Defined.

(** ** Input validation (C2) *)

Section Validation.
Context `{Platform}.

Lemma safeParse_first_issue (body : json) (issue : ZodIssue) (rest : list ZodIssue) :
  issues body = issue :: rest → safeParse body = inl issue.
Proof. unfold safeParse. by intros ->. Qed.

Lemma safeParse_invalid_url (members : list (string * json)) (u : string) :
  member "url" members = Some (JString u) → URL_new u = None →
  safeParse (JObject members) = inl (invalid_url ["url"]).
Proof.
  intros Hm Hu. eapply safeParse_first_issue. unfold issues, url_issues.
  rewrite Hm, Hu. reflexivity.
Qed.

Lemma safeParse_invalid_pageSize (members : list (string * json)) (p : string) :
  member "pageSize" members = Some (JString p) → pageSize_of_string p = None →
  ∃ issue, safeParse (JObject members) = inl issue.
Proof.
  intros Hm Hp. unfold safeParse, issues, pageSize_issues. rewrite Hm, Hp.
  destruct (url_issues _); cbn; eauto.
Qed.

Lemma safeParse_unrecognized_key (members : list (string * json)) (k : string) :
  In k members.*1 → k ≠ "url" → k ≠ "pageSize" →
  ∃ issue, safeParse (JObject members) = inl issue.
Proof.
  intros Hin Hu Hp. unfold safeParse, issues, strict_issues.
  assert (Hk : k ∈ filter (λ k, k ≠ "url" ∧ k ≠ "pageSize") members.*1).
  { apply list_elem_of_filter. split; [done|]. by apply list_elem_of_In. }
  destruct (filter _ _) as [|k' keys]; [by apply elem_of_nil in Hk|].
  destruct (url_issues _), (pageSize_issues _); cbn; eauto.
Qed.

(** The flow consults the store first, and sends the request when the
    store has no record, whether or not [url] is a valid URL. *)
Lemma handleSubmit_does_not_validate
    (env : Env) (url : string) (ps : PageSize) (b : Browser) :
  url ≠ "" →
  (∃ t, events (handleSubmit env url ps b) = IDBOpen :: t)
  ∧ (records b !! generateCacheKey url ps = None →
     fetches (events (handleSubmit env url ps b))
     = [{| req_url := url; req_pageSize := ps |}]).
Proof.
  intros Hurl%String.eqb_neq. js_start. rewrite Hurl. split.
  - repeat (js_run; try js_case); eauto.
  - intros Hb. repeat (js_run; rewrite ?Hb; try js_case); done.
Qed.

(** C2, as amended.  The flow itself refuses the empty url only, silently
    and before any interaction.  For every other url, valid or not, it
    opens the store first and, when the store has no record for it, sends
    the request.  The route handler refuses a body whose [url] is not a
    valid absolute URL, or whose [pageSize] is not one of the three, with
    status 400 and the message ["Invalid request: ..."], before any call to
    the rendering provider; when the request of the flow reaches the
    handler, the flow ends with that message as its error, hands nothing
    over and writes nothing to the store. *)
Theorem invalid_input_is_refused_by_the_handler :
  (∀ (env : Env) (ps : PageSize) (b : Browser),
     handleSubmit env "" ps b = (Normal tt, b, []))
  ∧ (∀ (env : Env) (url : string) (ps : PageSize) (b : Browser),
       url ≠ "" →
       (∃ t, events (handleSubmit env url ps b) = IDBOpen :: t)
       ∧ (records b !! generateCacheKey url ps = None →
          fetches (events (handleSubmit env url ps b))
          = [{| req_url := url; req_pageSize := ps |}]))
  ∧ (∀ (server : ServerEnv) (members : list (string * json)) (u : string),
       member "url" members = Some (JString u) → URL_new u = None →
       POST server (Some (JObject members))
       = (NextResponse_json
            ("Invalid request: " +:+ zod_message (invalid_url ["url"])) 400, []))
  ∧ (∀ (server : ServerEnv) (members : list (string * json)) (p : string),
       member "pageSize" members = Some (JString p) →
       pageSize_of_string p = None →
       ∃ issue,
         POST server (Some (JObject members))
         = (NextResponse_json ("Invalid request: " +:+ zod_message issue) 400, []))
  ∧ (∀ (server : ServerEnv) (members : list (string * json)) (u p : string),
       member "url" members = Some (JString u) → is_Some (URL_new u) →
       member "pageSize" members = Some (JString p) →
       pageSize_of_string p = None →
       POST server (Some (JObject members))
       = (NextResponse_json
            ("Invalid request: "
             +:+ zod_message (invalid_enum_value ["pageSize"] p)) 400, []))
  ∧ (∀ (env : Env) (server : ServerEnv) (url : string) (ps : PageSize)
       (b : Browser),
       URL_new url = None →
       fetches (events (handleSubmit env url ps b)) ≠ [] →
       network env = served server {| req_url := url; req_pageSize := ps |} →
       error (state (after (handleSubmit env url ps b)))
       = Some ("Invalid request: " +:+ zod_message (invalid_url ["url"]))
       ∧ downloads (events (handleSubmit env url ps b)) = []
       ∧ puts (events (handleSubmit env url ps b)) = []).
Proof.
  split_and!.
  - apply handleSubmit_empty.
  - apply handleSubmit_does_not_validate.
  - intros server members u Hm Hu.
    apply POST_refused. by eapply safeParse_invalid_url.
  - intros server members p Hm Hp.
    destruct (safeParse_invalid_pageSize members p Hm Hp) as [issue Hi].
    exists issue. by apply POST_refused.
  - intros server members u p Hu [parsed Hparsed] Hm Hp.
    apply POST_refused. eapply safeParse_first_issue.
    unfold issues, url_issues, pageSize_issues.
    rewrite Hu, Hparsed, Hm, Hp. reflexivity.
  - intros env server url ps b Hu Hf Hnet.
    assert (Hpost :
      POST server (Some (request_body {| req_url := url; req_pageSize := ps |}))
      = (NextResponse_json
           ("Invalid request: " +:+ zod_message (invalid_url ["url"])) 400, [])).
    { apply POST_refused. by apply (safeParse_invalid_url _ url). }
    unfold served in Hnet. rewrite Hpost in Hnet.
    destruct (handleSubmit_render_failure env url ps b _ Hf Hnet eq_refl)
      as (Herr & _ & Hd & Hp & _).
    done.
Qed.

End Validation.

Lemma invalid_input_is_refused_by_the_handler_witness :
  error (state (after (@handleSubmit Std.platform
                         (Sample.through Sample.server "not-a-url" a4)
                         "not-a-url" a4 Sample.fresh)))
  = Some "Invalid request: Invalid url"
  ∧ @POST Std.platform Sample.server
      (Some (JObject [("url", JString "https://example.com");
                      ("pageSize", JString "xlarge")]))
    = (NextResponse_json
         "Invalid request: Invalid enum value. Expected 'a4' | 'letter' | 'custom', received 'xlarge'"
         400, []).
Proof.
  destruct (@invalid_input_is_refused_by_the_handler Std.platform)
    as (_ & _ & _ & _ & Hsize & Hflow).
  split.
  - destruct (Hflow (Sample.through Sample.server "not-a-url" a4) Sample.server
                "not-a-url" a4 Sample.fresh) as [Herr _].
    + reflexivity.
    + vm_compute. discriminate.
    + reflexivity.
    + exact Herr.
  - apply (Hsize Sample.server _ "https://example.com" "xlarge");
      first [reflexivity | by eexists].
Defined.

(** C2 as stated fails on its own example: for ["not-a-url"], which the
    platform does not accept as a URL, the flow reads the store and sends
    the request; the refusal is the answer of the handler. *)
Lemma invalid_input_counterexample :
  Std.parse "not-a-url" = None
  ∧ events (@handleSubmit Std.platform (Sample.through Sample.server "not-a-url" a4)
              "not-a-url" a4 Sample.fresh)
    = [IDBOpen; StoreGet "not-a-url|a4";
       Fetch "/api/pdf" {| req_url := "not-a-url"; req_pageSize := a4 |}]
  ∧ error (state (after (@handleSubmit Std.platform
                           (Sample.through Sample.server "not-a-url" a4)
                           "not-a-url" a4 Sample.fresh)))
    = Some "Invalid request: Invalid url".
Proof. split_and!; reflexivity. Qed.

(** ** Page dimensions (C10) *)

Section Dimensions.
Context `{Platform}.

(** C10. The table gives [custom] the dimensions of [a4], 8.27 by 11.69
    inches, so the viewport set for [custom] is the one set for [a4]
    (794 by 1122 pixels), and the paper format passed for [custom] is
    ["CUSTOM"].  The schema has no field for dimensions: a body with any
    key besides [url] and [pageSize] is refused with status 400 before any
    call to the provider, every viewport the handler sets is one of the two
    of the table, and for a validated request with page size [custom] it
    is the one of [a4], with the format ["CUSTOM"]. *)
Theorem custom_page_size_uses_a4_dimensions :
  pageSizes custom = pageSizes a4
  ∧ pageSizes custom = {| width := 8.27; height := 11.69 |}
  ∧ (∀ token url,
       render_calls token url custom
       = [connect ("wss://production-sfo.browserless.io?token=" +:+ token);
          newPage;
          setViewport 794 1122;
          goto url "domcontentloaded";
          evaluate_images_loaded;
          createPDFStream "CUSTOM" true
            {| top := "20px"; right := "20px"; bottom := "20px"; left := "20px" |}])
  ∧ (∀ token url, In (setViewport 794 1122) (render_calls token url a4))
  ∧ (∀ (server : ServerEnv) (members : list (string * json)) (k : string),
       In k members.*1 → k ≠ "url" → k ≠ "pageSize" →
       ∃ issue,
         POST server (Some (JObject members))
         = (NextResponse_json ("Invalid request: " +:+ zod_message issue) 400, []))
  ∧ (∀ (server : ServerEnv) (body : json) (w h : Z),
       In (Call (setViewport w h)) (POST server (Some body)).2 →
       (w = 794 ∧ h = 1122)%Z ∨ (w = 816 ∧ h = 1056)%Z)
  ∧ (∀ (server : ServerEnv) (body : json) (url : string) (c : ProviderCall),
       safeParse body = inr {| req_url := url; req_pageSize := custom |} →
       In (Call c) (POST server (Some body)).2 →
       (∀ w h, c = setViewport w h → (w = 794 ∧ h = 1122)%Z)
       ∧ (∀ format background margin,
            c = createPDFStream format background margin → format = "CUSTOM")).
Proof.
  split_and!; try done.
  - intros token url. cbn. auto.
  - intros server members k Hin Hu Hp.
    destruct (safeParse_unrecognized_key members k Hin Hu Hp) as [issue Hi].
    exists issue. by apply POST_refused.
  - intros server body w h (token & data & _ & Hin)%POST_calls.
    destruct data as [url []]; cbn in Hin;
      repeat (destruct Hin as [[=]|Hin]; subst; auto); done.
  - intros server body url c Hdata (token & data & Hdata' & Hin)%POST_calls.
    rewrite Hdata in Hdata'. injection Hdata' as <-. cbn in Hin.
    repeat (destruct Hin as [<-|Hin]; [by split; intros; simplify_eq|]). done.
Qed.

End Dimensions.

Lemma custom_page_size_uses_a4_dimensions_witness :
  (@POST Std.platform Sample.server
     (Some (JObject [("url", JString "https://example.com");
                     ("pageSize", JString "custom");
                     ("width", JNumber 5)]))).2 = []
  ∧ In (Call (setViewport 794 1122))
       (@POST Std.platform Sample.server
          (Some (request_body {| req_url := "https://example.com";
                                 req_pageSize := custom |}))).2.
Proof.
  destruct (@custom_page_size_uses_a4_dimensions Std.platform)
    as (_ & _ & Hcalls & _ & Hstrict & _ & _).
  split.
  - destruct (Hstrict Sample.server
                [("url", JString "https://example.com");
                 ("pageSize", JString "custom"); ("width", JNumber 5)] "width")
      as [issue ->]; [|done..]. cbn. auto.
  - pose proof (Hcalls "token" "https://example.com") as Hc.
    vm_compute. auto.
Defined.

(** * Further properties of the code *)

(** ** The flow as a whole *)

Section Outcomes.
Context `{Platform}.

(** The flow on the hit path, for any state of the browser. *)
Lemma handleSubmit_hit
    (env : Env) (url : string) (ps : PageSize) (b : Browser) (e : CacheEntry) :
  url ≠ "" →
  opens (read_io env) = true → completes (read_io env) = true →
  records b !! generateCacheKey url ps = Some e →
  downloads (events (handleSubmit env url ps b)) = [blob e]
  ∧ fetches (events (handleSubmit env url ps b)) = [].
Proof.
  intros Hurl%String.eqb_neq Ho Hc He. js_start. rewrite Hurl.
  js_run. rewrite Ho, Hc. js_run. rewrite He. js_run.
  by destruct (URL_new url).
Qed.

(** X1. [handleSubmit] never rejects.  For a non-empty url it ends with the
    loading flag off and with at most one file handed to the user.  When it
    ends without an error, one file was handed over and the conversion
    count, a number JavaScript holds exactly, went up by one in the state
    and in [localStorage].  When it ends with nothing handed over, an error
    is set, and the count, [localStorage] and the store are as before.
    Nothing is said of the count where a file was handed over and an error
    is set, as after a [localStorage.setItem] that throws. *)
Theorem handleSubmit_settles
    (env : Env) (url : string) (ps : PageSize) (b : Browser) :
  outcome (handleSubmit env url ps b) = Normal tt
  ∧ (url ≠ "" →
     isLoading (state (after (handleSubmit env url ps b))) = false
     ∧ (length (downloads (events (handleSubmit env url ps b))) ≤ 1)%nat
     ∧ (error (state (after (handleSubmit env url ps b))) = None →
        (∃ c, downloads (events (handleSubmit env url ps b)) = [c])
        ∧ ((N.of_nat (conversionCount (state b)) < 2 ^ 53)%N →
           conversionCount (state (after (handleSubmit env url ps b)))
           = conversionCount (state b) + 1
           ∧ localStorage (after (handleSubmit env url ps b)) !! "conversionCount"
             = Some (pretty (conversionCount (state b) + 1))))
     ∧ (downloads (events (handleSubmit env url ps b)) = [] →
        is_Some (error (state (after (handleSubmit env url ps b))))
        ∧ conversionCount (state (after (handleSubmit env url ps b)))
          = conversionCount (state b)
        ∧ localStorage (after (handleSubmit env url ps b)) = localStorage b
        ∧ puts (events (handleSubmit env url ps b)) = []
        ∧ records (after (handleSubmit env url ps b)) = records b)).
Proof.
  js_start. destruct (url =? "") eqn:Hurl.
  { split; [done|]. intros Hne. by apply String.eqb_eq in Hurl. }
  repeat (js_run; try js_case);
    (split; [done|]; intros _; split_and!; [done|cbn; lia| |]);
    first [ by intros [=] | intros _ ];
    first [ split; [by eexists|]; intros _; split; [done|by apply lookup_insert_eq]
          | by split_and! ].
Qed.

(** X2. When the request is sent and [fetch] rejects, or the body of a
    successful response cannot be read, the flow ends with the message of
    the exception as its error (["An error occurred"] when what was thrown
    is not an [Error]); the request was sent once, nothing is handed over
    and nothing is written to the store. *)
Theorem network_failure_is_reported
    (env : Env) (url : string) (ps : PageSize) (b : Browser) (e : Thrown) :
  fetches (events (handleSubmit env url ps b)) ≠ [] →
  network env = inl e
  ∨ (∃ r, network env = inr r ∧ ok r = true ∧ content r = inl e) →
  error (state (after (handleSubmit env url ps b)))
  = Some match e with
         | JsError message => message
         | JsOther => "An error occurred"
         end
  ∧ fetches (events (handleSubmit env url ps b))
    = [{| req_url := url; req_pageSize := ps |}]
  ∧ downloads (events (handleSubmit env url ps b)) = []
  ∧ puts (events (handleSubmit env url ps b)) = []
  ∧ records (after (handleSubmit env url ps b)) = records b.
Proof.
  intros Hf Hnet. revert Hf. js_start.
  destruct (url =? "") eqn:Hurl; [intros Hf; by destruct Hf|].
  destruct Hnet as [Hnet|(r & Hnet & Hok & Hc)];
    repeat (js_run; rewrite ?Hnet, ?Hok, ?Hc; try js_case);
    try (intros Hf; by destruct Hf); intros _; destruct e; by split_and!.
Qed.

End Outcomes.

Lemma handleSubmit_settles_witness :
  (isLoading (state (after (@handleSubmit Std.platform Sample.offline
                              "https://example.com/" a4 Sample.fresh))) = false
   ∧ is_Some (error (state (after (@handleSubmit Std.platform Sample.offline
                                     "https://example.com/" a4 Sample.fresh)))))
  ∧ conversionCount (state (after (@handleSubmit Std.platform Sample.online
                                     "https://example.com/" a4 Sample.fresh))) = 1
  ∧ localStorage (after (@handleSubmit Std.platform Sample.online
                           "https://example.com/" a4 Sample.fresh))
    !! "conversionCount" = Some "1".
Proof.
  split.
  - destruct (@handleSubmit_settles Std.platform Sample.offline
                "https://example.com/" a4 Sample.fresh) as [_ Hrun].
    destruct Hrun as (Hload & _ & _ & Hnone); [discriminate|].
    destruct Hnone as (Herr & _); [reflexivity|].
    split; [exact Hload|exact Herr].
  - destruct (@handleSubmit_settles Std.platform Sample.online
                "https://example.com/" a4 Sample.fresh) as [_ Hrun].
    destruct Hrun as (_ & _ & Hdone & _); [discriminate|].
    destruct Hdone as [_ Hcount]; [reflexivity|].
    apply Hcount. reflexivity.
Defined.

Lemma network_failure_is_reported_witness :
  error (state (after (@handleSubmit Std.platform Sample.offline
                         "https://example.com/" a4 Sample.fresh)))
  = Some "Failed to fetch".
Proof.
  destruct (@network_failure_is_reported Std.platform Sample.offline
              "https://example.com/" a4 Sample.fresh (JsError "Failed to fetch"))
    as [Herr _].
  - vm_compute. discriminate.
  - left. reflexivity.
  - exact Herr.
Defined.

(** ** The store over several runs *)

Section StoreOverRuns.
Context `{Platform}.

(** A run that handed a file over while the store could be written leaves
    that file under the key of the request. *)
Lemma handleSubmit_delivered_is_cached
    (env : Env) (url : string) (ps : PageSize) (b : Browser) (c : Blob) :
  downloads (events (handleSubmit env url ps b)) = [c] →
  opens (write_io env) = true → completes (write_io env) = true →
  url ≠ ""
  ∧ ∃ e, records (after (handleSubmit env url ps b)) !! generateCacheKey url ps
         = Some e ∧ blob e = c.
Proof.
  intros Hd Hwo Hwc. revert Hd. js_start.
  destruct (url =? "") eqn:Hurl; [done|]. apply String.eqb_neq in Hurl.
  repeat (js_run; rewrite ?Hwo, ?Hwc; try js_case);
    try done; intros [= <-]; (split; [done|]);
    first [ by eexists | eexists; by rewrite lookup_insert_eq ].
Qed.

(** X3. Once a conversion has handed a document over while the store could
    be written, repeating it while the store can be read hands over the same
    bytes without any request to the server, whatever the network does. *)
Theorem repeated_conversion_is_served_from_cache
    (env1 env2 : Env) (url : string) (ps : PageSize) (b : Browser) (c : Blob) :
  downloads (events (handleSubmit env1 url ps b)) = [c] →
  opens (write_io env1) = true → completes (write_io env1) = true →
  opens (read_io env2) = true → completes (read_io env2) = true →
  downloads (events (handleSubmit env2 url ps (after (handleSubmit env1 url ps b))))
  = [c]
  ∧ fetches (events (handleSubmit env2 url ps (after (handleSubmit env1 url ps b))))
    = [].
Proof.
  intros Hd Hwo Hwc Hro Hrc.
  destruct (handleSubmit_delivered_is_cached _ _ _ _ _ Hd Hwo Hwc)
    as (Hurl & e & He & <-).
  by apply handleSubmit_hit.
Qed.

(** X4. A run changes the store at most under the key of its own
    [(url, pageSize)]: the record of every other pair is as before, and a
    record that was there is still there.  The flow never deletes. *)
Theorem handleSubmit_keeps_other_records
    (env : Env) (url : string) (ps : PageSize) (b : Browser) :
  (∀ url' ps', (url', ps') ≠ (url, ps) →
     records (after (handleSubmit env url ps b)) !! generateCacheKey url' ps'
     = records b !! generateCacheKey url' ps')
  ∧ (∀ k, is_Some (records b !! k) →
       is_Some (records (after (handleSubmit env url ps b)) !! k))
  ∧ (size (records b) ≤ size (records (after (handleSubmit env url ps b))))%nat.
Proof.
  destruct (handleSubmit_records env url ps b) as [->|(_ & c & ->)]; [done|].
  split_and!.
  - intros url' ps' Hne. apply lookup_insert_ne.
    intros [-> ->]%generateCacheKey_inj. done.
  - intros k Hk. rewrite lookup_insert. by case_decide.
  - destruct (records b !! generateCacheKey url ps) eqn:Hk.
    + rewrite <- (insert_delete_id _ _ _ Hk) at 1.
      rewrite <- (insert_delete_eq (records b)).
      by rewrite !map_size_insert_None by apply lookup_delete_eq.
    + rewrite map_size_insert_None by done. lia.
Qed.

End StoreOverRuns.

Lemma repeated_conversion_is_served_from_cache_witness :
  downloads (events (@handleSubmit Std.platform Sample.offline "https://example.com/" a4
                       (after (@handleSubmit Std.platform Sample.online
                                 "https://example.com/" a4 Sample.fresh))))
  = [Sample.document].
Proof.
  destruct (@repeated_conversion_is_served_from_cache Std.platform
              Sample.online Sample.offline "https://example.com/" a4 Sample.fresh
              Sample.document) as [Hd _]; [reflexivity..|exact Hd].
Defined.

Lemma handleSubmit_keeps_other_records_witness :
  records (after (@handleSubmit Std.platform Sample.online "https://example.com/" letter
                    Sample.cached))
    !! generateCacheKey "https://example.com/" a4
  = records Sample.cached !! generateCacheKey "https://example.com/" a4.
Proof.
  destruct (@handleSubmit_keeps_other_records Std.platform Sample.online
              "https://example.com/" letter Sample.cached) as [Hother _].
  apply Hother. discriminate.
Defined.

(** ** The cache functions on their own *)

(** X5. [getPdfFromCache] and [savePdfToCache] never reject, whatever the
    database does.  [getPdfFromCache] leaves the records as they are and
    returns a blob only when it is the blob of the record under the key;
    [savePdfToCache] leaves every other key as it is and never removes the
    record under its own. *)
Theorem cache_functions_never_reject
    (io : StoreIO) (now : Z) (url : string) (ps : PageSize) (c : Blob) (b : Browser) :
  (∃ found, outcome (getPdfFromCache io url ps b) = Normal found
            ∧ ∀ c', found = Some c' →
                ∃ e, records b !! generateCacheKey url ps = Some e ∧ blob e = c')
  ∧ records (after (getPdfFromCache io url ps b)) = records b
  ∧ outcome (savePdfToCache io now url ps c b) = Normal tt
  ∧ (∀ k, k ≠ generateCacheKey url ps →
       records (after (savePdfToCache io now url ps c b)) !! k = records b !! k)
  ∧ (is_Some (records b !! generateCacheKey url ps) →
     is_Some (records (after (savePdfToCache io now url ps c b))
                !! generateCacheKey url ps)).
Proof.
  rewrite getPdfFromCache_run, savePdfToCache_run. unfold outcome, after.
  destruct (opens io), (completes io); cbn [fst snd];
    rewrite ?records_put, ?records_onupgradeneeded;
    (split_and!; [eexists; split; [done|]|done|done| |]); try done.
  - intros c'. destruct (records b !! _) as [e|]; [|done]. intros [= <-]. eauto.
  - intros k Hk. by rewrite lookup_insert_ne.
  - intros _. by rewrite lookup_insert_eq.
Qed.

Lemma cache_functions_never_reject_witness :
  outcome (getPdfFromCache Sample.blocked "https://example.com/" a4 Sample.cached)
  = Normal None
  ∧ outcome (savePdfToCache Sample.failing 3 "https://example.com/" a4 [] Sample.cached)
    = Normal tt.
Proof.
  destruct (cache_functions_never_reject Sample.failing 3 "https://example.com/" a4 []
              Sample.cached) as (_ & _ & Hsave & _).
  split; [reflexivity|exact Hsave].
Defined.

(** X6. Opening the database is idempotent and keeps the records: a
    successful open makes sure the object store exists and changes nothing
    else, so that a second open changes nothing at all; a failing open
    rejects with ["Failed to open database"] and leaves the browser as it
    was. *)
Theorem initializeDB_idempotent (io : StoreIO) (b : Browser) :
  (opens io = true →
   outcome (initializeDB io b) = Normal tt
   ∧ is_Some (pdfs (after (initializeDB io b)))
   ∧ records (after (initializeDB io b)) = records b
   ∧ localStorage (after (initializeDB io b)) = localStorage b
   ∧ state (after (initializeDB io b)) = state b
   ∧ after (initializeDB io (after (initializeDB io b))) = after (initializeDB io b))
  ∧ (opens io = false →
     outcome (initializeDB io b) = Throw (JsError "Failed to open database")
     ∧ after (initializeDB io b) = b).
Proof.
  unfold initializeDB. js_unfold. unfold outcome, after.
  destruct b as [[store|] ls st], (opens io); split; intros; by try split_and!.
Qed.

Lemma initializeDB_idempotent_witness :
  is_Some (pdfs (after (initializeDB Sample.working Sample.fresh)))
  ∧ after (initializeDB Sample.blocked Sample.cached) = Sample.cached.
Proof.
  destruct (initializeDB_idempotent Sample.working Sample.fresh) as [Hopen _].
  destruct (initializeDB_idempotent Sample.blocked Sample.cached) as [_ Hfail].
  destruct (Hopen eq_refl) as (_ & Hsome & _).
  destruct (Hfail eq_refl) as [_ Hsame].
  split; [exact Hsome|exact Hsame].
Defined.

(** ** The conversion count across reloads *)

Lemma digit_pretty_N_char (d : N) :
  (d < 10)%N → ParseInt.digit (pretty_N_char d) = Some d.
Proof.
  intros Hd.
  assert (d = 0 ∨ d = 1 ∨ d = 2 ∨ d = 3 ∨ d = 4 ∨ d = 5 ∨ d = 6 ∨ d = 7
          ∨ d = 8 ∨ d = 9)%N as Hcases by lia.
  repeat (destruct Hcases as [->|Hcases]; [done|]). by subst.
Qed.

(** Reading the digits [pretty_N_go] wrote gives the number back. *)
Lemma digits_pretty_N_go (x : N) :
  (0 < x)%N →
  ∃ k, ∀ acc s,
    ParseInt.digits acc (pretty_N_go x s)
    = ParseInt.digits (Some (default 0 acc * 10 ^ k + x)%N) s.
Proof.
  induction (N.lt_wf_0 x) as [x _ IH]. intros Hx.
  assert (Hsplit : (x = 10 * (x `div` 10) + x `mod` 10)%N) by (by apply N.div_mod).
  assert (Hdigit : ParseInt.digit (pretty_N_char (x `mod` 10)) = Some (x `mod` 10)%N)
    by (by apply digit_pretty_N_char, N.mod_lt).
  destruct (decide (x `div` 10 = 0)%N) as [Hsmall|Hbig].
  - exists 1%N. intros acc s. rewrite pretty_N_go_step, Hsmall, pretty_N_go_0 by done.
    cbn [ParseInt.digits]. rewrite Hdigit. f_equal. f_equal.
    rewrite Hsmall in Hsplit. rewrite N.pow_1_r. unfold id. lia.
  - destruct (IH (x `div` 10)%N) as [k Hk]; [by apply N.div_lt|by apply N.neq_0_lt_0|].
    exists (k + 1)%N. intros acc s. rewrite pretty_N_go_step, Hk by done.
    cbn [ParseInt.digits]. rewrite Hdigit. f_equal. f_equal. cbn [default].
    rewrite N.pow_add_r, N.pow_1_r. unfold id. lia.
Qed.

Lemma digits_pretty (n : N) : ParseInt.digits None (pretty n) = Some n.
Proof.
  unfold pretty, pretty_N. case_decide as Hn; [by subst|].
  destruct (digits_pretty_N_go n) as [k Hk]; [lia|]. rewrite Hk. cbn. f_equal; lia.
Qed.

(** A string that starts with a digit has no white space or sign to skip. *)
Lemma parseInt_digits (s : string) (v : N) :
  ParseInt.digits None s = Some v → ParseInt.parseInt s = Some (Z.of_N v).
Proof.
  destruct s as [|c s]; [done|]. intros Hv. unfold ParseInt.parseInt.
  cbn [ParseInt.digits] in Hv. destruct (ParseInt.digit c) as [d|] eqn:Hd; [|done].
  assert (Hc : Ascii.is_space c = false ∧ Ascii.eqb c "-" = false
               ∧ Ascii.eqb c "+" = false).
  { by destruct c as [[] [] [] [] [] [] [] []]. }
  destruct Hc as (Hspace & Hminus & Hplus). cbn [ParseInt.trim]. rewrite Hspace.
  assert (Hgo : ParseInt.digits None (String c s) = Some v).
  { cbn [ParseInt.digits]. by rewrite Hd. }
  destruct c as [[] [] [] [] [] [] [] []]; try done; by rewrite Hgo.
Qed.

(** X7. The count [updateConversionCount] writes to [localStorage] is the
    one the component reads back when it mounts again: [parseInt] of the
    stored decimal string is the new count, for every count a JavaScript
    number holds exactly.  A [localStorage] without the item, or with an
    empty one, hands nothing to the component. *)
Theorem conversion_count_survives_reload :
  (∀ b : Browser,
     (N.of_nat (conversionCount (state b)) < 2 ^ 53)%N →
     mountedCount (after (updateConversionCount b))
     = Some (Some (Z.of_nat (conversionCount (state b) + 1)))
     ∧ conversionCount (state (after (updateConversionCount b)))
       = conversionCount (state b) + 1)
  ∧ (∀ b : Browser,
       localStorage b !! "conversionCount" = None
       ∨ localStorage b !! "conversionCount" = Some "" →
       mountedCount b = None).
Proof.
  split.
  - intros b _. rewrite updateConversionCount_run. unfold after, mountedCount.
    cbn [fst snd with_localStorage localStorage]. rewrite lookup_insert_eq.
    split; [|done].
    pose proof (digits_pretty (N.of_nat (conversionCount (state b) + 1))) as Hd.
    change (pretty (N.of_nat (conversionCount (state b) + 1)))
      with (pretty (conversionCount (state b) + 1)) in Hd.
    destruct (pretty (conversionCount (state b) + 1)) as [|c s] eqn:Hs; [done|].
    rewrite (parseInt_digits _ _ Hd). by rewrite nat_N_Z.
  - intros b [Hb|Hb]; unfold mountedCount; by rewrite Hb.
Qed.

Lemma conversion_count_survives_reload_witness :
  mountedCount (after (@updateConversionCount Sample.fresh)) = Some (Some 1%Z)
  ∧ mountedCount Sample.fresh = None.
Proof.
  destruct (@conversion_count_survives_reload) as [Hwrite Hnone].
  destruct (Hwrite Sample.fresh) as [Hcount _]; [reflexivity|].
  split; [exact Hcount|]. apply Hnone. left. reflexivity.
Defined.

(** ** The flow before and after the cache was added *)

Section Versions.
Context `{Platform}.

(** X8. Adding the cache did not change what a miss gives the user.  In
    every run of the cached flow that asks the server, the flow of the first
    version, in the same surroundings, sends the same request, hands over
    the same file, and ends with the same error, loading flag, conversion
    count and [localStorage]; and the first version asks the server in every
    run for a non-empty url. *)
Theorem cache_is_transparent_on_a_miss
    (env : Env) (url : string) (ps : PageSize) (b : Browser) :
  (fetches (events (handleSubmit env url ps b)) ≠ [] →
   outcome (Uncached.handleSubmit env url ps b) = outcome (handleSubmit env url ps b)
   ∧ fetches (events (Uncached.handleSubmit env url ps b))
     = fetches (events (handleSubmit env url ps b))
   ∧ downloads (events (Uncached.handleSubmit env url ps b))
     = downloads (events (handleSubmit env url ps b))
   ∧ error (state (after (Uncached.handleSubmit env url ps b)))
     = error (state (after (handleSubmit env url ps b)))
   ∧ isLoading (state (after (Uncached.handleSubmit env url ps b)))
     = isLoading (state (after (handleSubmit env url ps b)))
   ∧ conversionCount (state (after (Uncached.handleSubmit env url ps b)))
     = conversionCount (state (after (handleSubmit env url ps b)))
   ∧ localStorage (after (Uncached.handleSubmit env url ps b))
     = localStorage (after (handleSubmit env url ps b)))
  ∧ (url ≠ "" →
     fetches (events (Uncached.handleSubmit env url ps b))
     = [{| req_url := url; req_pageSize := ps |}]
     ∧ puts (events (Uncached.handleSubmit env url ps b)) = []
     ∧ pdfs (after (Uncached.handleSubmit env url ps b)) = pdfs b).
Proof.
  unfold Uncached.handleSubmit, Uncached.handleDownload. js_start.
  destruct (url =? "") eqn:Hurl.
  { split; [intros Hf; by destruct Hf|]. intros Hne. by apply String.eqb_eq in Hurl. }
  split.
  - repeat (js_run; try js_case);
      try (intros Hf; by destruct Hf); intros _; by split_and!.
  - intros _. repeat (js_run; try js_case); by split_and!.
Qed.

End Versions.

Lemma cache_is_transparent_on_a_miss_witness :
  downloads (events (@Uncached.handleSubmit Std.platform Sample.online
                       "https://example.com/" a4 Sample.fresh))
  = downloads (events (@handleSubmit Std.platform Sample.online
                         "https://example.com/" a4 Sample.fresh))
  ∧ downloads (events (@Uncached.handleSubmit Std.platform Sample.online
                         "https://example.com/" a4 Sample.fresh))
    = [Sample.document].
Proof.
  destruct (@cache_is_transparent_on_a_miss Std.platform Sample.online
              "https://example.com/" a4 Sample.fresh) as [Hmiss _].
  destruct Hmiss as (_ & _ & Hd & _); [vm_compute; discriminate|].
  split; [exact Hd|reflexivity].
Defined.

(** ** The schema of the request *)

Lemma pageSize_of_string_Some (s : string) (p : PageSize) :
  pageSize_of_string s = Some p ↔ s = pageSize_string p.
Proof.
  unfold pageSize_of_string. split.
  - destruct (s =? "a4") eqn:H1; [apply String.eqb_eq in H1 as ->; by intros [= <-]|].
    destruct (s =? "letter") eqn:H2; [apply String.eqb_eq in H2 as ->; by intros [= <-]|].
    destruct (s =? "custom") eqn:H3; [apply String.eqb_eq in H3 as ->; by intros [= <-]|].
    done.
  - intros ->. by destruct p.
Qed.

Lemma strict_issues_nil (members : list (string * json)) :
  strict_issues members = []
  ↔ Forall (λ k, k = "url" ∨ k = "pageSize") members.*1.
Proof.
  unfold strict_issues. induction members.*1 as [|k keys IH].
  - by rewrite filter_nil.
  - rewrite filter_cons, Forall_cons. case_decide as Hk.
    + split; [done|]. intros [[->| ->] _]; by destruct Hk.
    + rewrite IH. split; [|by intros [_ ?]]. intros Hkeys. split; [|done].
      destruct (decide (k = "url")); [by left|].
      destruct (decide (k = "pageSize")); [by right|]. by destruct Hk.
Qed.

Section Schema.
Context `{Platform}.

(** X9. The schema accepts exactly the objects whose [url] is a string the
    platform parses as a URL, whose [pageSize] is absent or one of the
    three names, and which have no other key; the data it returns carry
    that url, and that page size or [a4] when it is absent. *)
Theorem safeParse_accepts_exactly (body : json) (data : RenderRequest) :
  safeParse body = inr data ↔
  ∃ members,
    body = JObject members
    ∧ member "url" members = Some (JString (req_url data))
    ∧ is_Some (URL_new (req_url data))
    ∧ (member "pageSize" members = None ∧ req_pageSize data = a4
       ∨ member "pageSize" members
         = Some (JString (pageSize_string (req_pageSize data))))
    ∧ Forall (λ k, k = "url" ∨ k = "pageSize") members.*1.
Proof.
  split.
  - unfold safeParse, issues. destruct body as [| | | | |members]; try done.
    destruct (url_issues _) as [|] eqn:Hu; [|done].
    destruct (pageSize_issues _) as [|] eqn:Hp; [|done].
    destruct (strict_issues _) as [|] eqn:Hs; [|done].
    apply strict_issues_nil in Hs. cbn [app].
    unfold url_issues in Hu. unfold pageSize_issues in Hp.
    destruct (member "url" members) as [[| | |u| |]|] eqn:Hmu; try done.
    destruct (URL_new u) as [parsed|] eqn:Hparsed; [|done].
    destruct (member "pageSize" members) as [[| | |s| |]|] eqn:Hmp; try done.
    + destruct (pageSize_of_string s) as [p|] eqn:Hs'; [|done].
      intros [= <-]. exists members. cbn. apply pageSize_of_string_Some in Hs' as ->.
      split_and!; eauto.
    + intros [= <-]. exists members. cbn. split_and!; eauto.
  - intros (members & -> & Hu & [parsed Hparsed] & Hp & Hs%strict_issues_nil).
    unfold safeParse, issues, url_issues, pageSize_issues.
    rewrite Hu, Hparsed, Hs. destruct data as [u p]. cbn in *.
    destruct Hp as [[-> ->]| ->]; [done|].
    by rewrite (proj2 (pageSize_of_string_Some _ p) eq_refl).
Qed.

(** X10. The body the flow sends is read back by the schema as the request
    it was made from, when the url is one the platform parses; when it is
    not, the issue reported is the invalid url, whatever the page size. *)
Theorem request_round_trip (req : RenderRequest) :
  (is_Some (URL_new (req_url req)) → safeParse (request_body req) = inr req)
  ∧ (URL_new (req_url req) = None →
     safeParse (request_body req) = inl (invalid_url ["url"])).
Proof.
  destruct req as [u p]. unfold safeParse, request_body, issues, url_issues. cbn.
  split.
  - intros [parsed ->]. by destruct p.
  - by intros ->.
Qed.

End Schema.

Lemma request_round_trip_witness :
  @safeParse Std.platform
    (request_body {| req_url := "https://example.com/"; req_pageSize := letter |})
  = inr {| req_url := "https://example.com/"; req_pageSize := letter |}
  ∧ @safeParse Std.platform
      (request_body {| req_url := "not-a-url"; req_pageSize := letter |})
    = inl (invalid_url ["url"]).
Proof.
  split.
  - apply (@request_round_trip Std.platform). by eexists.
  - apply (@request_round_trip Std.platform). reflexivity.
Defined.

(** ** The calls of the handler *)

Lemma perform_all (succeeds : ProviderCall → bool) (calls : list ProviderCall) :
  Forall (λ c, succeeds c = true) calls ↔ (perform succeeds calls).2 = true.
Proof.
  induction calls as [|c calls IH]; [done|]. rewrite Forall_cons, IH. cbn [perform].
  destruct (succeeds c); [|by split; [intros []|]].
  destruct (perform succeeds calls) as [evs all]. cbn. by split; [intros []|].
Qed.

Lemma perform_all_events (succeeds : ProviderCall → bool) (calls : list ProviderCall) :
  (perform succeeds calls).2 = true → (perform succeeds calls).1 = Call <$> calls.
Proof.
  induction calls as [|c calls IH]; [done|]. cbn [perform].
  destruct (succeeds c); [|done].
  destruct (perform succeeds calls) as [evs all]. cbn in *. intros ->.
  by rewrite IH.
Qed.

Lemma perform_first_failure (succeeds : ProviderCall → bool)
    (pre post : list ProviderCall) (c : ProviderCall) :
  Forall (λ c, succeeds c = true) pre → succeeds c = false →
  perform succeeds (pre ++ c :: post) = (Call <$> pre ++ [c], false).
Proof.
  intros Hpre Hc. induction Hpre as [|d pre Hd _ IH]; cbn [perform app].
  - by rewrite Hc.
  - by rewrite Hd, IH.
Qed.

Section Calls.
Context `{Platform}.

(** X11. The handler answers with the document exactly when the body was
    read and accepted by the schema, the token is set, and every call to the
    provider returned; the document is then the one the provider streamed,
    served as [application/pdf].  The provider is contacted only for an
    accepted body with the token set. *)
Theorem POST_document_iff (env : ServerEnv) (body : option json)
    (stream : Blob) (contentType : string) :
  ((POST env body).1 = NextResponse_stream stream contentType ↔
   ∃ parsed data token,
     body = Some parsed ∧ safeParse parsed = inr data
     ∧ BROWSERLESS_TOKEN env = Some token ∧ token ≠ ""
     ∧ Forall (λ c, succeeds env c = true)
         (render_calls token (req_url data) (req_pageSize data))
     ∧ stream = pdf env ∧ contentType = "application/pdf")
  ∧ (calls_of (POST env body).2 ≠ [] →
     ∃ parsed data token,
       body = Some parsed ∧ safeParse parsed = inr data
       ∧ BROWSERLESS_TOKEN env = Some token ∧ token ≠ "").
Proof.
  split.
  - unfold POST. destruct body as [parsed|];
      [|split; [done|by intros (? & ? & ? & [=] & _)]].
    destruct (safeParse parsed) as [issue|data] eqn:Hparse;
      [split; [done|intros (? & ? & ? & [= <-] & ? & _); congruence]|].
    destruct (BROWSERLESS_TOKEN env) as [[|a token]|] eqn:Htoken;
      [split; [done|intros (? & ? & ? & _ & _ & ? & ? & _); congruence]|
      |split; [done|intros (? & ? & ? & _ & _ & ? & ? & _); congruence]].
    pose proof (perform_all (succeeds env)
                  (render_calls (String a token) (req_url data) (req_pageSize data)))
      as Hall.
    destruct (perform _ _) as [evs all]. cbn [snd] in Hall. split.
    + destruct all; [|done]. intros [= <- <-].
      exists parsed, data, (String a token). split_and!; try done. by apply Hall.
    + intros (? & ? & ? & [= <-] & Hp & [= <-] & _ & Hcalls & -> & ->).
      rewrite Hparse in Hp. injection Hp as <-. apply Hall in Hcalls as ->. done.
  - unfold POST. destruct body as [parsed|]; [|intros Hc; by destruct Hc].
    destruct (safeParse parsed) as [issue|data] eqn:Hparse;
      [intros Hc; by destruct Hc|].
    destruct (BROWSERLESS_TOKEN env) as [[|a token]|] eqn:Htoken;
      [intros Hc; by destruct Hc| |intros Hc; by destruct Hc].
    intros _. by exists parsed, data, (String a token).
Qed.

(** X12. For an accepted body with the token set, the handler makes the six
    provider calls in order and stops at the first one that throws: when all
    return, the events are the six calls and the log line; when one throws,
    the events are the calls up to and including that one, then the error
    log, and the answer is status 500 with ["Failed to generate PDF"]. *)
Theorem POST_stops_at_first_failure
    (env : ServerEnv) (body : json) (data : RenderRequest) (token : string) :
  safeParse body = inr data →
  BROWSERLESS_TOKEN env = Some token → token ≠ "" →
  (Forall (λ c, succeeds env c = true)
     (render_calls token (req_url data) (req_pageSize data)) →
   POST env (Some body)
   = (NextResponse_stream (pdf env) "application/pdf",
      (Call <$> render_calls token (req_url data) (req_pageSize data))
      ++ [ServerConsoleLog "Stream:"]))
  ∧ (∀ pre c post,
       render_calls token (req_url data) (req_pageSize data) = pre ++ c :: post →
       Forall (λ c, succeeds env c = true) pre → succeeds env c = false →
       POST env (Some body)
       = (NextResponse_json "Failed to generate PDF" 500,
          (Call <$> pre ++ [c]) ++ [ServerConsoleError "PDF generation error:"])).
Proof.
  intros Hparse Htoken Hne. unfold POST. rewrite Hparse, Htoken.
  destruct token as [|a token]; [done|]. split.
  - intros Hall. pose proof (proj1 (perform_all _ _) Hall) as Htrue.
    pose proof (perform_all_events _ _ Htrue) as Hevs.
    destruct (perform _ _) as [evs all]. cbn in Htrue, Hevs. by subst.
  - intros pre c post -> Hpre Hc. by rewrite perform_first_failure.
Qed.

End Calls.

Lemma POST_stops_at_first_failure_witness :
  @POST Std.platform Sample.server_down
    (Some (request_body {| req_url := "https://example.com/"; req_pageSize := a4 |}))
  = (NextResponse_json "Failed to generate PDF" 500,
     [Call (connect "wss://production-sfo.browserless.io?token=token");
      Call newPage; Call (setViewport 794 1122);
      Call (goto "https://example.com/" "domcontentloaded");
      ServerConsoleError "PDF generation error:"]).
Proof.
  destruct (@POST_stops_at_first_failure Std.platform Sample.server_down
              (request_body {| req_url := "https://example.com/"; req_pageSize := a4 |})
              {| req_url := "https://example.com/"; req_pageSize := a4 |} "token")
    as [_ Hfail]; [reflexivity|reflexivity|discriminate|].
  apply (Hfail [connect "wss://production-sfo.browserless.io?token=token"; newPage;
                setViewport 794 1122]
               (goto "https://example.com/" "domcontentloaded")
               [evaluate_images_loaded;
                createPDFStream "A4" true
                  {| top := "20px"; right := "20px"; bottom := "20px"; left := "20px" |}]).
  - reflexivity.
  - repeat constructor.
  - reflexivity.
Defined.

Lemma safeParse_accepts_exactly_witness :
  @safeParse Std.platform (JObject [("url", JString "https://example.com/")])
  = inr {| req_url := "https://example.com/"; req_pageSize := a4 |}.
Proof.
  apply (@safeParse_accepts_exactly Std.platform).
  exists [("url", JString "https://example.com/")].
  split_and!; [reflexivity|reflexivity|by eexists|by left|].
  repeat constructor.
Defined.

Lemma POST_document_iff_witness :
  (@POST Std.platform Sample.server
     (Some (request_body {| req_url := "https://example.com/"; req_pageSize := letter |}))).1
  = NextResponse_stream Sample.document "application/pdf".
Proof.
  apply (@POST_document_iff Std.platform).
  exists (request_body {| req_url := "https://example.com/"; req_pageSize := letter |}),
         {| req_url := "https://example.com/"; req_pageSize := letter |}, "token".
  split_and!; [reflexivity|reflexivity|reflexivity|discriminate| |reflexivity|reflexivity].
  repeat constructor.
Defined.

(** ** The flow and the handler together *)

Section EndToEnd.
Context `{Platform}.



End EndToEnd.


(** ** The ends of the derived filename *)

Section FilenameEnds.
Context `{Platform}.

(** X14. The derived name never starts with a hyphen, and a name shorter
    than 100 characters does not end with one: the hyphens at the ends are
    removed before the name is cut to 100 characters, so only the cut can
    leave a hyphen at the end. *)
Theorem generateFilenameFromUrl_ends (url : string) :
  first_char (generateFilenameFromUrl url) ≠ Some "-"%char
  ∧ ((String.length (generateFilenameFromUrl url) < 100)%nat →
     last_char (generateFilenameFromUrl url) ≠ Some "-"%char).
Proof.
  unfold generateFilenameFromUrl. destruct (URL_new url) as [u|]; [|done].
  unfold filenameOfURL.
  set (raw := if negb (pathname u =? "") && negb (pathname u =? "/") then _ else _).
  set (clean := JsString.collapse_runs "-" _).
  assert (Hclean : JsString.no_double "-" clean = true)
    by apply no_double_collapse_runs.
  destruct (JsString.take 100 _ =? "") eqn:Hname; [done|]. split.
  - by apply first_char_take, first_char_strip_ends.
  - intros Hlen. rewrite take_all by done. by apply last_char_strip_ends.
Qed.

End FilenameEnds.

Lemma generateFilenameFromUrl_ends_witness :
  last_char (@generateFilenameFromUrl Std.platform "https://example.com/a-/") ≠ Some "-"%char
  ∧ @generateFilenameFromUrl Std.platform "https://example.com/a-/" = "example-com-a".
Proof.
  destruct (@generateFilenameFromUrl_ends Std.platform "https://example.com/a-/")
    as [_ Hlast].
  split; [apply Hlast; vm_compute; lia|reflexivity].
Defined.
